(** * Incremental search (lib/ace/incremental_search.js)

    A shallow embedding of the [IncrementalSearch] controller and the
    properties of its state machine.  The controller is a JavaScript object
    whose methods mutate [this], the shared [$options] object and the editor
    they were activated on; the embedding threads that state explicitly
    through a small state-and-exception monad. *)

From Stdlib Require Import String List Bool Arith Lia.
Import ListNotations.
Open Scope string_scope.

(** ** Collaborators that live outside incremental_search.js *)

Record Position := { row : nat; column : nat }.

(** Modelled from the spec: ranges come from lib/ace/range.js, which is not
    among the sources.  A range is a pair of points and [Range.fromPoints]
    builds the range running from its first argument to its second. *)
Module Range.
Record t := { start : Position; end_ : Position }.
Definition fromPoints (s e : Position) : t := {| start := s; end_ := e |}.
End Range.

(** The argument of [next]: [{[backwards: BOOL], [useCurrentOrPrevSearch: BOOL]}].
    Both keys are optional; a missing key reads as [undefined]. *)
Module NextOptions.
Record t := { backwards : option bool; useCurrentOrPrevSearch : option bool }.
Definition empty : t := {| backwards := None; useCurrentOrPrevSearch := None |}.
End NextOptions.

(** JavaScript truthiness of an optional boolean ([undefined] is falsy). *)
Definition truthy (v : option bool) : bool :=
  match v with Some b => b | None => false end.

(** [v || ''] on an optional string. *)
Definition orEmpty (v : option string) : string :=
  match v with Some s => s | None => "" end.

(** ['...' + v] coerces [undefined] to the text "undefined". *)
Definition toStr (v : option string) : string :=
  match v with Some s => s | None => "undefined" end.

(** [needle.substring(0, needle.length-1)] *)
Definition dropLast (s : string) : string :=
  String.substring 0 (String.length s - 1) s.

Fixpoint endsWith (s suffix : string) : bool :=
  String.eqb s suffix ||
  match s with
  | EmptyString => false
  | String _ s' => endsWith s' suffix
  end.

(** ** State and exceptions

    A method either returns or throws a [TypeError] (a property read on
    [undefined]); whatever it wrote before throwing stays written. *)
Inductive Completion (A : Type) :=
| Normal (a : A)
| TypeError.
Arguments Normal {A} a.
Arguments TypeError {A}.

Section Model.

(** The compiled pattern [options.re] is opaque to the controller. *)
Variable RE : Type.

(** [this.$options]: the option object shared with the inherited [Search]. *)
Record Options := {
  wrap : bool;
  skipCurrent : bool;
  needle : option string;
  backwards : option bool;
  start : option Position;
  re : option RE
}.

Definition set_needle (v : option string) (o : Options) : Options :=
  {| wrap := wrap o; skipCurrent := skipCurrent o; needle := v;
     backwards := backwards o; start := start o; re := re o |}.
Definition set_backwards (v : option bool) (o : Options) : Options :=
  {| wrap := wrap o; skipCurrent := skipCurrent o; needle := needle o;
     backwards := v; start := start o; re := re o |}.
Definition set_start (v : option Position) (o : Options) : Options :=
  {| wrap := wrap o; skipCurrent := skipCurrent o; needle := needle o;
     backwards := backwards o; start := v; re := re o |}.
Definition set_re (v : option RE) (o : Options) : Options :=
  {| wrap := wrap o; skipCurrent := skipCurrent o; needle := needle o;
     backwards := backwards o; start := start o; re := v |}.

(** The calls an editor receives from the controller, newest first. *)
Inductive Call :=
| CMoveCursorToPosition (p : Position)
| CClearSelection
| CHighlight (r : option RE)
| CUpdateBackMarkers
| CAddKeyboardHandler (kb : nat)
| CRemoveKeyboardHandler (kb : nat)
| CSetValue (msg : string).

(** [editor.session] *)
Record Session := {
  document : list string;
  emacsMark : option Position;       (* session.$emacsMark *)
  searchHighlight : option RE        (* pattern set by session.highlight *)
}.

(** Modelled from the spec: the editor (EditingSurface contract: cursor,
    selection, highlight, input-handler stack, status sink) is implemented
    in files that are not among the sources.  The record holds what the
    controller can read back, and [calls] logs what it asked for. *)
Record Editor := {
  cursor : Position;                 (* getCursorPosition() *)
  selectionIsEmpty : bool;           (* selection.isEmpty() *)
  session : Session;
  handlers : list nat;               (* keyBinding handler stack, top first *)
  cmdLine : option string;           (* value of editor.cmdLine, if there is one *)
  calls : list Call
}.

Definition logged (c : Call) (e : Editor) : Editor :=
  {| cursor := cursor e; selectionIsEmpty := selectionIsEmpty e;
     session := session e; handlers := handlers e; cmdLine := cmdLine e;
     calls := c :: calls e |}.

(** Modelled from the spec: [moveCursorTo(Position)] makes
    [cursorPosition()] return that position. *)
Definition moveCursorToPosition (p : Position) (e : Editor) : Editor :=
  logged (CMoveCursorToPosition p)
    {| cursor := p; selectionIsEmpty := selectionIsEmpty e;
       session := session e; handlers := handlers e; cmdLine := cmdLine e;
       calls := calls e |}.

(** Modelled from the spec: [clearSelection()] leaves an empty selection. *)
Definition clearSelection (e : Editor) : Editor :=
  logged CClearSelection
    {| cursor := cursor e; selectionIsEmpty := true;
       session := session e; handlers := handlers e; cmdLine := cmdLine e;
       calls := calls e |}.

(** Modelled from the spec: [highlight(patternOrNull)] sets or clears the
    live search-match decoration. *)
Definition highlight (r : option RE) (e : Editor) : Editor :=
  logged (CHighlight r)
    {| cursor := cursor e; selectionIsEmpty := selectionIsEmpty e;
       session := {| document := document (session e);
                     emacsMark := emacsMark (session e);
                     searchHighlight := r |};
       handlers := handlers e; cmdLine := cmdLine e; calls := calls e |}.

Definition updateBackMarkers (e : Editor) : Editor :=
  logged CUpdateBackMarkers e.

(** Modelled from the spec: [pushInputOverlay] puts the overlay on top of
    the LIFO input-handler stack. *)
Definition addKeyboardHandler (kb : nat) (e : Editor) : Editor :=
  logged (CAddKeyboardHandler kb)
    {| cursor := cursor e; selectionIsEmpty := selectionIsEmpty e;
       session := session e; handlers := kb :: handlers e;
       cmdLine := cmdLine e; calls := calls e |}.

Fixpoint removeFirst (kb : nat) (hs : list nat) : list nat :=
  match hs with
  | [] => []
  | h :: hs' => if Nat.eqb h kb then hs' else h :: removeFirst kb hs'
  end.

(** Modelled from the spec: [popInputOverlay(overlay)] takes the (topmost
    occurrence of the) overlay off the stack. *)
Definition removeKeyboardHandler (kb : nat) (e : Editor) : Editor :=
  logged (CRemoveKeyboardHandler kb)
    {| cursor := cursor e; selectionIsEmpty := selectionIsEmpty e;
       session := session e; handlers := removeFirst kb (handlers e);
       cmdLine := cmdLine e; calls := calls e |}.

(** [cmdLine.setValue(msg, 1)] *)
Definition setValue (msg : string) (e : Editor) : Editor :=
  logged (CSetValue msg)
    {| cursor := cursor e; selectionIsEmpty := selectionIsEmpty e;
       session := session e; handlers := handlers e;
       cmdLine := Some msg; calls := calls e |}.

(** The inherited [Search]: [find] reads the session and [$options] and
    answers a range or nothing; it also stores the pattern it compiled
    from the options in [options.re]. *)
Class Search := {
  find : Session -> Options -> option Range.t;
  assembleRegExp : Options -> RE
}.

(** ** The controller object and the world it lives in *)

Record IncrementalSearch := {
  options : Options;                 (* this.$options *)
  keyboardHandler : nat;             (* identity of this.$keyboardHandler *)
  editor : option nat;               (* this.$editor, a reference *)
  startPos : option Position;        (* this.$startPos *)
  currentPos : option Position;      (* this.$currentPos *)
  prevNeedle : option string         (* this.$prevNeedle *)
}.

(** [new IncrementalSearch()] *)
Definition newIncrementalSearch (kb : nat) : IncrementalSearch :=
  {| options := {| wrap := false; skipCurrent := false; needle := None;
                   backwards := None; start := None; re := None |};
     keyboardHandler := kb; editor := None; startPos := None;
     currentPos := None; prevNeedle := None |}.

Definition set_options (v : Options) (t : IncrementalSearch) :=
  {| options := v; keyboardHandler := keyboardHandler t; editor := editor t;
     startPos := startPos t; currentPos := currentPos t;
     prevNeedle := prevNeedle t |}.
Definition set_editor (v : option nat) (t : IncrementalSearch) :=
  {| options := options t; keyboardHandler := keyboardHandler t; editor := v;
     startPos := startPos t; currentPos := currentPos t;
     prevNeedle := prevNeedle t |}.
Definition set_startPos (v : option Position) (t : IncrementalSearch) :=
  {| options := options t; keyboardHandler := keyboardHandler t;
     editor := editor t; startPos := v; currentPos := currentPos t;
     prevNeedle := prevNeedle t |}.
Definition set_currentPos (v : option Position) (t : IncrementalSearch) :=
  {| options := options t; keyboardHandler := keyboardHandler t;
     editor := editor t; startPos := startPos t; currentPos := v;
     prevNeedle := prevNeedle t |}.
Definition set_prevNeedle (v : option string) (t : IncrementalSearch) :=
  {| options := options t; keyboardHandler := keyboardHandler t;
     editor := editor t; startPos := startPos t; currentPos := currentPos t;
     prevNeedle := v |}.

(** Editors are shared objects: the controller keeps a reference, the host
    keeps using the same object.  [heap] maps references to objects. *)
Record World := {
  this : IncrementalSearch;
  heap : nat -> Editor;
  console : list string              (* console.log lines, newest first *)
}.

Definition upd (l : nat) (e : Editor) (h : nat -> Editor) : nat -> Editor :=
  fun l' => if Nat.eqb l' l then e else h l'.

Definition M (A : Type) := World -> Completion A * World.

Definition ret {A} (a : A) : M A := fun w => (Normal a, w).
Definition throw {A} : M A := fun w => (TypeError, w).
Definition bind {A B} (m : M A) (k : A -> M B) : M B :=
  fun w => match m w with
           | (Normal a, w') => k a w'
           | (TypeError, w') => (TypeError, w')
           end.

Definition getThis : M IncrementalSearch := fun w => (Normal (this w), w).
Definition modifyThis (f : IncrementalSearch -> IncrementalSearch) : M unit :=
  fun w => (Normal tt, {| this := f (this w); heap := heap w; console := console w |}).
Definition modifyOptions (f : Options -> Options) : M unit :=
  modifyThis (fun t => set_options (f (options t)) t).
Definition readEditor (l : nat) : M Editor := fun w => (Normal (heap w l), w).
Definition onEditor (l : nat) (f : Editor -> Editor) : M unit :=
  fun w => (Normal tt, {| this := this w; heap := upd l (f (heap w l)) (heap w);
                          console := console w |}).
Definition consoleLog (msg : string) : M unit :=
  fun w => (Normal tt, {| this := this w; heap := heap w; console := msg :: console w |}).

(** Reading a property of a value that may be [undefined]. *)
Definition deref {A} (v : option A) : M A :=
  match v with Some a => ret a | None => throw end.

Local Notation "x <- m ;; k" := (bind m (fun x => k))
  (at level 61, m at next level, right associativity).
Local Notation "m ;;; k" := (bind m (fun _ => k))
  (at level 61, right associativity).

Definition isSome {A} (v : option A) : bool :=
  match v with Some _ => true | None => false end.

(** ** The methods of [IncrementalSearch.prototype] *)

Context {S : Search}.

Definition getCursorPosition (l : nat) : M Position :=
  e <- readEditor l ;; ret (cursor e).

(** [this.message]: the command line when the editor has one, else the console. *)
Definition message (msg : string) : M unit :=
  t <- getThis ;;
  match editor t with
  | Some l =>
      e <- readEditor l ;;
      match cmdLine e with
      | Some _ => onEditor l (setValue msg)
      | None => consoleLog msg
      end
  | None => consoleLog msg
  end.

Definition selectionFix (l : nat) : M unit :=
  e <- readEditor l ;;
  if selectionIsEmpty e && negb (isSome (emacsMark (session e)))
  then onEditor l clearSelection
  else ret tt.

Definition activate (l : nat) (backwards_ : bool) : M unit :=
  modifyThis (set_editor (Some l)) ;;;
  p <- getCursorPosition l ;;
  modifyThis (set_currentPos (Some p)) ;;;
  modifyThis (set_startPos (Some p)) ;;;
  modifyOptions (set_needle (Some "")) ;;;
  modifyOptions (set_backwards (Some backwards_)) ;;;
  t <- getThis ;;
  onEditor l (addKeyboardHandler (keyboardHandler t)) ;;;
  selectionFix l ;;;
  t <- getThis ;;
  let msg := if truthy (backwards (options t)) then "reverse-" else "" in
  message (msg ++ "isearch: " ++ toStr (needle (options t))).

Definition cancelSearch (reset : bool) : M Range.t :=
  t <- getThis ;;
  let e := editor t in
  modifyThis (set_prevNeedle (needle (options t))) ;;;
  modifyOptions (set_needle (Some "")) ;;;
  (if reset then
     l <- deref e ;;
     p <- deref (startPos t) ;;
     onEditor l (moveCursorToPosition p) ;;;
     modifyThis (set_currentPos (startPos t))
   else ret tt) ;;;
  l <- deref e ;;
  onEditor l (highlight None) ;;;
  onEditor l updateBackMarkers ;;;
  t <- getThis ;;
  p <- deref (currentPos t) ;;
  ret (Range.fromPoints p p).

Definition deactivate (reset : bool) : M unit :=
  cancelSearch reset ;;;
  t <- getThis ;;
  l <- deref (editor t) ;;
  onEditor l (removeKeyboardHandler (keyboardHandler t)) ;;;
  message "".

(** [this.find(session)]: the inherited search, run on [this.$options]. *)
Definition runFind (l : nat) : M (option Range.t) :=
  t <- getThis ;;
  e <- readEditor l ;;
  modifyOptions (set_re (Some (assembleRegExp (options t)))) ;;;
  ret (find (session e) (options t)).

Definition highlightAndFindWithNeedle (moveToNext : bool)
    (needleUpdateFunc : option (IncrementalSearch -> string -> string))
    : M (option Range.t) :=
  t <- getThis ;;
  match editor t with
  | None => ret None
  | Some l =>
      (* get search term *)
      match needleUpdateFunc with
      | Some f =>
          modifyOptions (set_needle (Some (f t (orEmpty (needle (options t))))))
      | None => ret tt
      end ;;;
      t <- getThis ;;
      n <- deref (needle (options t)) ;;
      if Nat.eqb (String.length n) 0 then
        r <- cancelSearch true ;; ret (Some r)
      else
        (* try to find the next occurence and enable highlighting marker *)
        modifyOptions (set_start (currentPos t)) ;;;
        found <- runFind l ;;
        found <- match found with
                 | Some r =>
                     t <- getThis ;;
                     let r := if truthy (backwards (options t))
                              then Range.fromPoints (Range.end_ r) (Range.start r)
                              else r in
                     onEditor l (moveCursorToPosition (Range.end_ r)) ;;;
                     (if moveToNext
                      then modifyThis (set_currentPos (Some (Range.end_ r)))
                      else ret tt) ;;;
                     onEditor l (highlight (re (options t))) ;;;
                     onEditor l updateBackMarkers ;;;
                     ret (Some r)
                 | None => ret None
                 end ;;
        t <- getThis ;;
        let msg := if truthy (backwards (options t)) then "reverse-" else "" in
        let msg := msg ++ "isearch: " ++ toStr (needle (options t)) in
        let msg := if isSome found then msg else msg ++ " (not found)" in
        message msg ;;;
        ret found
  end.

(** The three needle update functions handed to
    [highlightAndFindWithNeedle]; each is called with the controller as
    [this] and the stored needle. *)
Definition addCharUpdate (c : string) : IncrementalSearch -> string -> string :=
  fun _ needle => needle ++ c.

Definition removeCharUpdate : IncrementalSearch -> string -> string :=
  fun _ needle =>
    if Nat.ltb 0 (String.length needle) then dropLast needle else needle.

Definition nextUpdate (opts : NextOptions.t)
  : IncrementalSearch -> string -> string :=
  fun this needle =>
    if truthy (NextOptions.useCurrentOrPrevSearch opts)
       && Nat.eqb (String.length needle) 0
    then orEmpty (prevNeedle this)
    else needle.

Definition addChar (c : string) : M (option Range.t) :=
  highlightAndFindWithNeedle false (Some (addCharUpdate c)).

Definition removeChar : M (option Range.t) :=
  highlightAndFindWithNeedle false (Some removeCharUpdate).

Definition next (opts : option NextOptions.t) : M (option Range.t) :=
  let opts := match opts with Some o => o | None => NextOptions.empty end in
  modifyOptions (set_backwards (Some (truthy (NextOptions.backwards opts)))) ;;;
  t <- getThis ;;
  l <- deref (editor t) ;;
  p <- getCursorPosition l ;;
  modifyThis (set_currentPos (Some p)) ;;;
  highlightAndFindWithNeedle true (Some (nextUpdate opts)).

(** The entry points that act on a running session, as one type. *)
Inductive Op :=
| OAddChar (c : string)
| ORemoveChar
| ONext (opts : option NextOptions.t)
| OCancelSearch (reset : bool)
| ODeactivate (reset : bool).

Definition run (op : Op) : M (option Range.t) :=
  match op with
  | OAddChar c => addChar c
  | ORemoveChar => removeChar
  | ONext opts => next opts
  | OCancelSearch reset => r <- cancelSearch reset ;; ret (Some r)
  | ODeactivate reset => deactivate reset ;;; ret None
  end.

End Model.

Arguments wrap {RE}.
Arguments skipCurrent {RE}.
Arguments needle {RE}.
Arguments backwards {RE}.
Arguments start {RE}.
Arguments re {RE}.
Arguments set_needle {RE}.
Arguments set_backwards {RE}.
Arguments set_start {RE}.
Arguments set_re {RE}.
Arguments CMoveCursorToPosition {RE}.
Arguments CClearSelection {RE}.
Arguments CHighlight {RE}.
Arguments CUpdateBackMarkers {RE}.
Arguments CAddKeyboardHandler {RE}.
Arguments CRemoveKeyboardHandler {RE}.
Arguments CSetValue {RE}.
Arguments document {RE}.
Arguments emacsMark {RE}.
Arguments searchHighlight {RE}.
Arguments cursor {RE}.
Arguments selectionIsEmpty {RE}.
Arguments session {RE}.
Arguments handlers {RE}.
Arguments cmdLine {RE}.
Arguments calls {RE}.
Arguments logged {RE}.
Arguments moveCursorToPosition {RE}.
Arguments clearSelection {RE}.
Arguments highlight {RE}.
Arguments updateBackMarkers {RE}.
Arguments addKeyboardHandler {RE}.
Arguments removeKeyboardHandler {RE}.
Arguments setValue {RE}.
Arguments options {RE}.
Arguments keyboardHandler {RE}.
Arguments editor {RE}.
Arguments startPos {RE}.
Arguments currentPos {RE}.
Arguments prevNeedle {RE}.
Arguments newIncrementalSearch {RE}.
Arguments set_options {RE}.
Arguments set_editor {RE}.
Arguments set_startPos {RE}.
Arguments set_currentPos {RE}.
Arguments set_prevNeedle {RE}.
Arguments this {RE}.
Arguments heap {RE}.
Arguments console {RE}.
Arguments upd {RE}.
Arguments getThis {RE}.
Arguments modifyThis {RE}.
Arguments modifyOptions {RE}.
Arguments readEditor {RE}.
Arguments onEditor {RE}.
Arguments consoleLog {RE}.
Arguments addCharUpdate {RE}.
Arguments removeCharUpdate {RE}.
Arguments nextUpdate {RE}.
Arguments getCursorPosition {RE}.
Arguments message {RE}.
Arguments selectionFix {RE}.
Arguments activate {RE}.
Arguments cancelSearch {RE}.
Arguments deactivate {RE}.
Arguments ret {RE A}.
Arguments throw {RE A}.
Arguments deref {RE A}.
Arguments bind {RE A B}.
Arguments find {RE Search}.
Arguments assembleRegExp {RE Search}.
Arguments runFind {RE S}.
Arguments highlightAndFindWithNeedle {RE S}.
Arguments addChar {RE S}.
Arguments removeChar {RE S}.
Arguments next {RE S}.
Arguments run {RE S}.

(** ** A literal finder, to run the controller on concrete buffers

    [literalSearch] instantiates the inherited [Search] with a plain
    substring search that honours [start], [backwards] and [wrap = false]. *)

Fixpoint firstIndex (needle s : string) (from idx : nat) : option nat :=
  if Nat.leb from idx && String.prefix needle s then Some idx
  else match s with
       | EmptyString => None
       | String _ s' => firstIndex needle s' from (S idx)
       end.

Fixpoint lastIndex (needle s : string) (upto idx : nat) : option nat :=
  match s with
  | EmptyString => None
  | String _ s' =>
      match lastIndex needle s' upto (S idx) with
      | Some j => Some j
      | None =>
          if Nat.leb (idx + String.length needle) upto && String.prefix needle s
          then Some idx else None
      end
  end.

Definition matchAt (needle : string) (r i : nat) : Range.t :=
  Range.fromPoints {| row := r; column := i |}
                   {| row := r; column := i + String.length needle |}.

Fixpoint findForward (needle : string) (lines : list string) (r from : nat)
  : option Range.t :=
  match lines with
  | [] => None
  | s :: rest =>
      match firstIndex needle s from 0 with
      | Some i => Some (matchAt needle r i)
      | None => findForward needle rest (S r) 0
      end
  end.

Fixpoint findBackward (needle : string) (revLines : list string) (r : nat)
    (upto : option nat) : option Range.t :=
  match revLines with
  | [] => None
  | s :: rest =>
      let bound := match upto with Some c => c | None => String.length s end in
      match lastIndex needle s bound 0 with
      | Some i => Some (matchAt needle r i)
      | None => findBackward needle rest (Nat.pred r) None
      end
  end.

Definition literalFind (s : Session string) (o : Options string)
  : option Range.t :=
  match start o with
  | None => None
  | Some p =>
      if truthy (backwards o)
      then findBackward (orEmpty (needle o))
             (rev (firstn (S (row p)) (document s))) (row p) (Some (column p))
      else findForward (orEmpty (needle o))
             (skipn (row p) (document s)) (row p) (column p)
  end.

Definition literalSearch : Search string :=
  {| find := literalFind; assembleRegExp := fun o => orEmpty (needle o) |}.

Definition pos (r c : nat) : Position := {| row := r; column := c |}.

(** An editor showing [lines], caret at [p], nothing selected, with a
    command line. *)
Definition editorOn (lines : list string) (p : Position) : Editor string :=
  {| cursor := p; selectionIsEmpty := true;
     session := {| document := lines; emacsMark := None;
                   searchHighlight := None |};
     handlers := []; cmdLine := Some ""; calls := [] |}.

(** A fresh controller (keyboard handler 1) next to that editor, which sits
    at every reference. *)
Definition worldOn (lines : list string) (p : Position) : World string :=
  {| this := newIncrementalSearch 1; heap := fun _ => editorOn lines p;
     console := [] |}.

(** Run a method for its effect on the world. *)
Definition exec {RE A} (m : M RE A) (w : World RE) : World RE := snd (m w).
(** Run a method for its completion. *)
Definition result {RE A} (m : M RE A) (w : World RE) : Completion A := fst (m w).

(** The query an update function proposes in world [w]:
    [needleUpdateFunc.call(this, options.needle || '')]. *)
Definition candidate {RE} (f : IncrementalSearch RE -> string -> string)
    (w : World RE) : string :=
  f (this w) (orEmpty (needle (options (this w)))).

(** The options [find] is run with when the query [q] is searched from the
    anchor of [w]. *)
Definition searchOptions {RE} (w : World RE) (q : string) : Options RE :=
  set_start (currentPos (this w)) (set_needle (Some q) (options (this w))).

(** The status text editor [l] shows: its command line, or else the last
    console line. *)
Definition status {RE} (w : World RE) (l : nat) : option string :=
  match cmdLine (heap w l) with
  | Some v => Some v
  | None => hd_error (console w)
  end.

(** The [setValue] call a status message causes on an editor, if it has a
    command line. *)
Definition statusCall {RE} (e : Editor RE) (msg : string) : list (Call RE) :=
  match cmdLine e with Some _ => [CSetValue msg] | None => [] end.

(** A session is running on editor [l], started at [sp], anchored at [cp]. *)
Definition active {RE} (w : World RE) (l : nat) (sp cp : Position) : Prop :=
  editor (this w) = Some l /\ startPos (this w) = Some sp /\
  currentPos (this w) = Some cp.

(** A status message reaching editor [e]: its command line takes it, if it
    has one ... *)
Definition emit {RE} (msg : string) (e : Editor RE) : Editor RE :=
  match cmdLine e with Some _ => setValue msg e | None => e end.

(** ... and the console takes it otherwise. *)
Definition emitLog {RE} (msg : string) (e : Editor RE) (con : list string)
  : list string :=
  match cmdLine e with Some _ => con | None => msg :: con end.

(** ['reverse-'? + 'isearch: ' + needle + ' (not found)'?] *)
Definition isearchMessage (bw : option bool) (q : string) (found : bool)
  : string :=
  let msg := if truthy bw then "reverse-" else "" in
  let msg := msg ++ "isearch: " ++ q in
  if found then msg else msg ++ " (not found)".

(** The match as the controller uses it: reversed when searching backwards. *)
Definition oriented (bw : option bool) (r : Range.t) : Range.t :=
  if truthy bw then Range.fromPoints (Range.end_ r) (Range.start r) else r.

Definition optsOf (opts : option NextOptions.t) : NextOptions.t :=
  match opts with Some o => o | None => NextOptions.empty end.

(** Which entry points run a search, with which update function, and
    whether they advance the anchor. *)
Definition isSearch (op : Op) : bool :=
  match op with OAddChar _ | ORemoveChar | ONext _ => true | _ => false end.

Definition isEdit (op : Op) : bool :=
  match op with OAddChar _ | ORemoveChar => true | _ => false end.

Definition updateOf {RE} (op : Op) : IncrementalSearch RE -> string -> string :=
  match op with
  | OAddChar c => addCharUpdate c
  | ORemoveChar => removeCharUpdate
  | ONext opts => nextUpdate (optsOf opts)
  | _ => fun _ needle => needle
  end.

Definition advances (op : Op) : bool :=
  match op with ONext _ => true | _ => false end.

(** What [next] does to a running session before it searches: it takes the
    direction from its argument and re-anchors at the caret.  The other
    entry points search in the world as they find it. *)
Definition reanchor {RE} (op : Op) (w : World RE) : World RE :=
  match op, editor (this w) with
  | ONext opts, Some l =>
      {| this := set_currentPos (Some (cursor (heap w l)))
                   (set_options
                      (set_backwards
                         (Some (truthy (NextOptions.backwards (optsOf opts))))
                         (options (this w)))
                      (this w));
         heap := heap w; console := console w |}
  | _, _ => w
  end.

(** ** The [useIncrementalSearch] option *)

(** The value the option is set to: [true], [false], or nothing at all.
    [a == b] on such values: [undefined] equals only itself. *)
Definition looseEq (a b : option bool) : bool :=
  match a, b with
  | None, None => true
  | Some x, Some y => Bool.eqb x y
  | _, _ => false
  end.

(** The browser document, as far as [patchHighlightMarkerStyling] can see
    it: the elements under head and under body, in document order. *)
Module Dom.
Record Element := {
  tagName : string;
  id : option string;
  textContent : string
}.
Record Document := { head : list Element; body : list Element }.

Definition hasId (i : string) (e : Element) : bool :=
  match id e with Some j => String.eqb j i | None => false end.

(** [document.getElementById(i)]: the first element with that id. *)
Definition getElementById (i : string) (d : Document) : option Element :=
  List.find (hasId i) (head d ++ body d).

Fixpoint removeFirstWith (p : Element -> bool) (es : list Element)
  : list Element :=
  match es with
  | [] => []
  | e :: rest => if p e then rest else e :: removeFirstWith p rest
  end.

(** [style.parentNode.removeChild(style)] for the element that
    [getElementById(i)] answered. *)
Definition removeById (i : string) (d : Document) : Document :=
  if existsb (hasId i) (head d)
  then {| head := removeFirstWith (hasId i) (head d); body := body d |}
  else {| head := head d; body := removeFirstWith (hasId i) (body d) |}.

(** [document.getElementsByTagName('head')[0].appendChild(e)] *)
Definition appendToHead (e : Element) (d : Document) : Document :=
  {| head := head d ++ [e]; body := body d |}.

(** How many elements carry the id [i]. *)
Definition count (i : string) (d : Document) : nat :=
  List.length (filter (hasId i) (head d ++ body d)).
End Dom.

Record PatchOptions := { enable : option bool }.

Definition styleId : string := "incremental-search-highlight-style-patch".

Definition newline : string := String (Ascii.ascii_of_nat 10) "".

Definition styleText : string :=
  "div.ace_selected-word {" ++ newline
  ++ "  background-color: orange !important;" ++ newline
  ++ "  border: 0 !important;"
  ++ "}" ++ newline.

Definition styleElement : Dom.Element :=
  {| Dom.tagName := "style"; Dom.id := Some styleId;
     Dom.textContent := styleText |}.

Definition patchHighlightMarkerStyling (options : option PatchOptions)
    (d : Dom.Document) : Dom.Document :=
  let options := match options with Some o => o | None => {| enable := None |} end in
  match Dom.getElementById styleId d with
  | Some _ =>
      if truthy (enable options) then d
      else Dom.removeById styleId d
  | None =>
      if negb (truthy (enable options)) then d
      else Dom.appendToHead styleElement d
  end.

(** [CommandManager.prototype.setupIncrementalSearch(editor, val)]; the
    editor argument is not used.  [calls] logs the [addCommands] and
    [removeCommands] calls made with the start commands, newest first. *)
Module CommandManager.
Inductive Call := AddCommands | RemoveCommands.
Record t := { usesIncrementalSearch : option bool; calls : list Call }.

Definition setupIncrementalSearch (val : option bool) (h : t) : t :=
  if looseEq (usesIncrementalSearch h) val then h
  else {| usesIncrementalSearch := val;
          calls := (if truthy val then AddCommands else RemoveCommands)
                   :: calls h |}.
End CommandManager.

(** [emacs.handler.setupIncrementalSearch(editor, val)]; [bound] logs the
    [bindKey(key, command)] calls, newest first. *)
Module Emacs.
Record t := {
  usesIncrementalSearch : option bool;
  bound : list (string * string)
}.

Definition setupIncrementalSearch (val : option bool) (h : t) : t :=
  if looseEq (usesIncrementalSearch h) val then h
  else {| usesIncrementalSearch := val;
          bound := (if truthy val
                    then [("C-r", "iSearchBackwards"); ("C-s", "iSearch")]
                    else [("C-r", "findprevious"); ("C-s", "findnext")])
                   ++ bound h |}.

(** The two newest [bindKey] calls when the flag is [v]. *)
Definition bindingsFor (v : option bool) : list (string * string) :=
  if truthy v
  then [("C-r", "iSearchBackwards"); ("C-s", "iSearch")]
  else [("C-r", "findprevious"); ("C-s", "findnext")].
End Emacs.

(** The setter of the [useIncrementalSearch] editor option. *)
Module Config.
(** A keyboard handler on the editor's stack: the two kinds that know
    [setupIncrementalSearch], and any other. *)
Inductive Handler :=
| OfCommandManager (h : CommandManager.t)
| OfEmacs (h : Emacs.t)
| Other (n : nat).

(** [if (handler.setupIncrementalSearch) handler.setupIncrementalSearch(this, val)] *)
Definition setup (val : option bool) (h : Handler) : Handler :=
  match h with
  | OfCommandManager c =>
      OfCommandManager (CommandManager.setupIncrementalSearch val c)
  | OfEmacs e => OfEmacs (Emacs.setupIncrementalSearch val e)
  | Other n => Other n
  end.

(** What the setter works on: the document and [keyBinding.$handlers]. *)
Record Host := { dom : Dom.Document; handlers : list Handler }.

Definition set (val : option bool) (h : Host) : Host :=
  {| dom := patchHighlightMarkerStyling (Some {| enable := val |}) (dom h);
     handlers := map (setup val) (handlers h) |}.

(** The flag a handler carries, if it is of a kind that has one. *)
Definition flag (h : Handler) : option (option bool) :=
  match h with
  | OfCommandManager c => Some (CommandManager.usesIncrementalSearch c)
  | OfEmacs e => Some (Emacs.usesIncrementalSearch e)
  | Other _ => None
  end.
End Config.

(** Setting the option again and again. *)
Definition patchAll (vals : list (option bool)) (d : Dom.Document)
  : Dom.Document :=
  fold_left (fun d v => patchHighlightMarkerStyling (Some {| enable := v |}) d)
    vals d.

Definition setupAllCommands (vals : list (option bool)) (h : CommandManager.t)
  : CommandManager.t :=
  fold_left (fun h v => CommandManager.setupIncrementalSearch v h) vals h.

Definition setupAllEmacs (vals : list (option bool)) (h : Emacs.t) : Emacs.t :=
  fold_left (fun h v => Emacs.setupIncrementalSearch v h) vals h.

(** No [addCommands] directly on top of another. *)
Fixpoint noAddTwice (log : list CommandManager.Call) : bool :=
  match log with
  | CommandManager.AddCommands :: ((CommandManager.AddCommands :: _) as rest) =>
      false
  | _ :: rest => noAddTwice rest
  | [] => true
  end.

(** What holds of a command manager however it was set up: no
    [addCommands] sits directly on another, and the newest call, if there is
    one, is the one for the current flag. *)
Definition commandsAgree (h : CommandManager.t) : Prop :=
  noAddTwice (CommandManager.calls h) = true
  /\ match CommandManager.calls h with
     | [] => True
     | c :: _ =>
         c = if truthy (CommandManager.usesIncrementalSearch h)
             then CommandManager.AddCommands
             else CommandManager.RemoveCommands
     end.

(** ** Sequences of calls *)

(** Every entry point a host can call, [activate] included. *)
Inductive Action :=
| Act (op : Op)
| Activate (l : nat) (backwards_ : bool).

Definition perform {RE} {S : Search RE} (a : Action) : M RE (option Range.t) :=
  match a with
  | Act op => run op
  | Activate l b => bind (activate l b) (fun _ => ret None)
  end.

(** The calls of a list, one after the other; a throw ends the sequence. *)
Fixpoint performAll {RE} {S : Search RE} (acts : list Action) : M RE unit :=
  match acts with
  | [] => ret tt
  | a :: rest => bind (perform a) (fun _ => performAll rest)
  end.

Definition acts (ops : list Op) : list Action := map Act ops.

(** ** Sample sessions *)

Section Sessions.

#[local] Existing Instance literalSearch.

(** A session on "abc", started at the top, after typing "c": the match is
    [2,3), the caret sits behind it and the anchor is still at the start. *)
Definition typedC : World string :=
  exec (addChar "c") (exec (activate 0 false) (worldOn ["abc"] (pos 0 0))).

(** A session on "abcabcabc" after typing "ab". *)
Definition typedAB : World string :=
  exec (addChar "b")
    (exec (addChar "a")
       (exec (activate 0 false) (worldOn ["abcabcabc"] (pos 0 0)))).

(** The same session confirmed, and a new one started where it ended. *)
Definition restarted : World string :=
  exec (activate 0 false) (exec (deactivate false) typedAB).

(** A session started backwards from the end of "abcabcabc". *)
Definition startedBackwards : World string :=
  exec (activate 0 true) (worldOn ["abcabcabc"] (pos 0 9)).

(** An editor whose selection is not empty, with no mark set. *)
Definition selecting : World string :=
  {| this := newIncrementalSearch 1;
     heap := fun _ =>
       {| cursor := pos 0 2; selectionIsEmpty := false;
          session := {| document := ["abc"]; emacsMark := None;
                        searchHighlight := None |};
          handlers := []; cmdLine := Some ""; calls := [] |};
     console := [] |}.

Definition reuse : NextOptions.t :=
  {| NextOptions.backwards := None;
     NextOptions.useCurrentOrPrevSearch := Some true |}.

(** A page with a title and a stylesheet in its head and one paragraph in
    its body; none of them carries the style's id. *)
Definition page : Dom.Document :=
  {| Dom.head := [ {| Dom.tagName := "title"; Dom.id := None;
                      Dom.textContent := "editor" |};
                   {| Dom.tagName := "style"; Dom.id := Some "theme";
                      Dom.textContent := "" |} ];
     Dom.body := [ {| Dom.tagName := "p"; Dom.id := Some "intro";
                      Dom.textContent := "hello" |} ] |}.

(** An editor's handler stack: a command manager and an emacs handler that
    were never set up, below a handler of another kind. *)
Definition plainHost : Config.Host :=
  {| Config.dom := page;
     Config.handlers :=
       [ Config.Other 1;
         Config.OfEmacs {| Emacs.usesIncrementalSearch := None;
                           Emacs.bound := [] |};
         Config.OfCommandManager
           {| CommandManager.usesIncrementalSearch := None;
              CommandManager.calls := [] |} ] |}.

End Sessions.

(** * Properties *)

Section Properties.

Context {RE : Type} {S : Search RE}.

Lemma upd_same l (e : Editor RE) h : upd l e h l = e.
Proof. unfold upd. now rewrite Nat.eqb_refl. Qed.

Lemma upd_other l l' (e : Editor RE) h : l' <> l -> upd l e h l' = h l'.
Proof. intros H. unfold upd. apply Nat.eqb_neq in H. now rewrite H. Qed.

Lemma length_zero (q : string) : String.length q = 0 <-> q = "".
Proof. destruct q; simpl; split; congruence. Qed.

Lemma endsWith_refl s : endsWith s s = true.
Proof. destruct s; simpl; [reflexivity|]. now rewrite Ascii.eqb_refl, String.eqb_refl. Qed.

Lemma endsWith_app p s : endsWith (p ++ s) s = true.
Proof.
  induction p as [|a p IH]; simpl.
  - apply endsWith_refl.
  - rewrite IH. apply orb_true_r.
Qed.

Ltac unfold_monad :=
  unfold bind, ret, throw, deref, getThis, modifyThis, modifyOptions,
    readEditor, onEditor, consoleLog, getCursorPosition in *.

Ltac open_world w H :=
  let o := fresh "o" in let kb := fresh "kb" in let h := fresh "h" in
  let con := fresh "con" in let pn := fresh "pn" in
  let e := fresh "e" in let s := fresh "s" in let c := fresh "c" in
  destruct H as (? & ? & ?);
  destruct w as [[o kb e s c pn] h con]; simpl in *; subst.

(** ** How [highlightAndFindWithNeedle] runs, case by case *)

Lemma run_search (op : Op) (w : World RE) l :
  isSearch op = true -> editor (this w) = Some l ->
  run op w
  = highlightAndFindWithNeedle (advances op) (Some (updateOf op)) (reanchor op w).
Proof.
  intros Hop He. destruct op; try discriminate; simpl; try reflexivity.
  unfold next, reanchor. unfold_monad. simpl. rewrite He. reflexivity.
Qed.

Lemma reanchor_candidate (op : Op) (w : World RE) :
  candidate (updateOf op) (reanchor op w) = candidate (updateOf op) w.
Proof.
  unfold reanchor. destruct op; try reflexivity.
  destruct (editor (this w)); reflexivity.
Qed.

Lemma reanchor_active (op : Op) (w : World RE) l sp cp :
  active w l sp cp ->
  active (reanchor op w) l sp (if advances op then cursor (heap w l) else cp).
Proof.
  intros (He & Hs & Hc). unfold reanchor, active.
  destruct op; simpl; auto. rewrite He. simpl. auto.
Qed.

Lemma search_no_editor (w : World RE) m f :
  editor (this w) = None ->
  highlightAndFindWithNeedle m f w = (Normal None, w).
Proof.
  intros He. unfold highlightAndFindWithNeedle. unfold_monad. now rewrite He.
Qed.

Lemma search_empty (w : World RE) l sp (m : bool) f :
  editor (this w) = Some l -> startPos (this w) = Some sp ->
  String.length (candidate f w) = 0 ->
  let w' := exec (highlightAndFindWithNeedle m (Some f)) w in
  highlightAndFindWithNeedle m (Some f) w
  = bind (cancelSearch true) (fun r => ret (Some r))
      (exec (modifyOptions (set_needle (Some ""))) w)
  /\ result (highlightAndFindWithNeedle m (Some f)) w
     = Normal (Some (Range.fromPoints sp sp))
  /\ this w' = set_currentPos (Some sp)
                 (set_options (set_needle (Some "") (options (this w)))
                    (set_prevNeedle (Some "") (this w)))
  /\ heap w' l = updateBackMarkers (highlight None
                   (moveCursorToPosition sp (heap w l)))
  /\ (forall l', l' <> l -> heap w' l' = heap w l')
  /\ console w' = console w.
Proof.
  intros He Hs Hq. apply length_zero in Hq. unfold candidate in Hq.
  destruct w as [[o kb e s c pn] h con]; simpl in *; subst.
  unfold exec, result, highlightAndFindWithNeedle, cancelSearch.
  unfold_monad. simpl. rewrite Hq. simpl.
  rewrite ?upd_same. simpl.
  repeat split; try reflexivity.
  intros l' Hl. now rewrite !upd_other.
Qed.

Lemma search_not_found (w : World RE) l (m : bool) f :
  editor (this w) = Some l ->
  let q := candidate f w in
  String.length q <> 0 ->
  find (session (heap w l)) (searchOptions w q) = None ->
  let w' := exec (highlightAndFindWithNeedle m (Some f)) w in
  let msg := isearchMessage (backwards (options (this w))) q false in
  result (highlightAndFindWithNeedle m (Some f)) w = Normal None
  /\ this w' = set_options
                 (set_re (Some (assembleRegExp (searchOptions w q)))
                    (searchOptions w q)) (this w)
  /\ heap w' l = emit msg (heap w l)
  /\ (forall l', l' <> l -> heap w' l' = heap w l')
  /\ console w' = emitLog msg (heap w l) (console w).
Proof.
  intros He q Hq Hf. subst q. apply Nat.eqb_neq in Hq.
  unfold candidate, searchOptions in *.
  destruct w as [[o kb e s c pn] h con]; simpl in *; subst.
  unfold exec, result, highlightAndFindWithNeedle, runFind, message.
  unfold_monad. simpl. rewrite Hq. simpl.
  unfold set_start, set_needle in *. simpl in *. rewrite Hf. simpl.
  unfold emit, emitLog, isearchMessage.
  destruct (cmdLine (h l)) eqn:Hc; simpl; rewrite ?upd_same;
    (repeat split; try reflexivity).
  intros l' Hl. now rewrite upd_other.
Qed.

Lemma search_found (w : World RE) l (m : bool) f r :
  editor (this w) = Some l ->
  let q := candidate f w in
  String.length q <> 0 ->
  find (session (heap w l)) (searchOptions w q) = Some r ->
  let w' := exec (highlightAndFindWithNeedle m (Some f)) w in
  let bw := backwards (options (this w)) in
  let r' := oriented bw r in
  let pat := Some (assembleRegExp (searchOptions w q)) in
  let msg := isearchMessage bw q true in
  result (highlightAndFindWithNeedle m (Some f)) w = Normal (Some r')
  /\ this w' = (if m then set_currentPos (Some (Range.end_ r')) else fun t => t)
                 (set_options (set_re pat (searchOptions w q)) (this w))
  /\ heap w' l = emit msg (updateBackMarkers (highlight pat
                   (moveCursorToPosition (Range.end_ r') (heap w l))))
  /\ (forall l', l' <> l -> heap w' l' = heap w l')
  /\ console w' = emitLog msg (heap w l) (console w).
Proof.
  intros He q Hq Hf. subst q. apply Nat.eqb_neq in Hq.
  unfold candidate, searchOptions in *.
  destruct w as [[o kb e s c pn] h con]; simpl in *; subst.
  unfold exec, result, highlightAndFindWithNeedle, runFind, message.
  unfold_monad. simpl. rewrite Hq. simpl.
  unfold set_start, set_needle in *. simpl in *. rewrite Hf. simpl.
  unfold emit, emitLog, isearchMessage, oriented.
  destruct m; simpl; rewrite ?upd_same; simpl;
    destruct (cmdLine (h l)) eqn:Hc; simpl; rewrite ?upd_same;
    (repeat split; try reflexivity);
    intros l' Hl; now rewrite ?upd_other.
Qed.

Lemma cancelSearch_active (w : World RE) l sp cp (reset : bool) :
  active w l sp cp ->
  let a := if reset then sp else cp in
  let w' := exec (cancelSearch reset) w in
  result (cancelSearch reset) w = Normal (Range.fromPoints a a)
  /\ this w' = set_currentPos (Some a)
                 (set_options (set_needle (Some "") (options (this w)))
                    (set_prevNeedle (needle (options (this w))) (this w)))
  /\ heap w' l = updateBackMarkers (highlight None
                   (if reset then moveCursorToPosition sp (heap w l)
                    else heap w l))
  /\ (forall l', l' <> l -> heap w' l' = heap w l')
  /\ console w' = console w.
Proof.
  intros H. open_world w H.
  unfold exec, result, cancelSearch. unfold_monad.
  destruct reset; simpl; rewrite ?upd_same; simpl;
    (repeat split; try reflexivity);
    intros l' Hl; now rewrite ?upd_other.
Qed.

Lemma deactivate_active (w : World RE) l sp cp (reset : bool) :
  active w l sp cp ->
  let a := if reset then sp else cp in
  let w' := exec (deactivate reset) w in
  result (deactivate reset) w = Normal tt
  /\ this w' = set_currentPos (Some a)
                 (set_options (set_needle (Some "") (options (this w)))
                    (set_prevNeedle (needle (options (this w))) (this w)))
  /\ heap w' l = emit "" (removeKeyboardHandler (keyboardHandler (this w))
                   (updateBackMarkers (highlight None
                      (if reset then moveCursorToPosition sp (heap w l)
                       else heap w l))))
  /\ (forall l', l' <> l -> heap w' l' = heap w l')
  /\ console w' = emitLog "" (heap w l) (console w).
Proof.
  intros H. open_world w H.
  unfold exec, result, deactivate, cancelSearch, message. unfold_monad.
  unfold emit, emitLog.
  destruct reset; simpl; rewrite ?upd_same; simpl;
    destruct (cmdLine (h l)) eqn:Hc; simpl; rewrite ?upd_same; simpl;
    (repeat split; try reflexivity);
    intros l' Hl; now rewrite ?upd_other.
Qed.

(** [activate] needs no running session; it never looks at one. *)
Lemma activate_run (w : World RE) l (b : bool) :
  let e := heap w l in
  let here := cursor e in
  let w' := exec (activate l b) w in
  let msg := isearchMessage (Some b) "" true in
  result (activate l b) w = Normal tt
  /\ this w' = set_options
                 (set_backwards (Some b)
                    (set_needle (Some "") (options (this w))))
                 (set_startPos (Some here)
                    (set_currentPos (Some here)
                       (set_editor (Some l) (this w))))
  /\ heap w' l = emit msg
                   ((if selectionIsEmpty e && negb (isSome (emacsMark (session e)))
                     then clearSelection else fun x => x)
                      (addKeyboardHandler (keyboardHandler (this w)) e))
  /\ (forall l', l' <> l -> heap w' l' = heap w l')
  /\ console w' = emitLog msg e (console w).
Proof.
  destruct w as [[o kb e s c pn] h con]; simpl.
  unfold exec, result, activate, selectionFix, message. unfold_monad.
  unfold emit, emitLog, isearchMessage. simpl. rewrite ?upd_same. simpl.
  destruct (selectionIsEmpty (h l) && negb (isSome (emacsMark (session (h l)))));
    simpl; rewrite ?upd_same; simpl;
    destruct (cmdLine (h l)) eqn:Hc; simpl; rewrite ?upd_same; simpl;
    (repeat split; try reflexivity);
    intros l' Hl; now rewrite ?upd_other.
Qed.

Lemma emit_cursor msg (e : Editor RE) : cursor (emit msg e) = cursor e.
Proof. unfold emit. now destruct (cmdLine e). Qed.

Lemma emit_session msg (e : Editor RE) : session (emit msg e) = session e.
Proof. unfold emit. now destruct (cmdLine e). Qed.

Lemma emit_selection msg (e : Editor RE) :
  selectionIsEmpty (emit msg e) = selectionIsEmpty e.
Proof. unfold emit. now destruct (cmdLine e). Qed.

Lemma emit_handlers msg (e : Editor RE) : handlers (emit msg e) = handlers e.
Proof. unfold emit. now destruct (cmdLine e). Qed.

Lemma emit_calls msg (e : Editor RE) :
  calls (emit msg e) = (statusCall e msg ++ calls e)%list.
Proof. unfold emit, statusCall. now destruct (cmdLine e). Qed.

Lemma emit_status (w w' : World RE) l msg :
  heap w' l = emit msg (heap w l) ->
  console w' = emitLog msg (heap w l) (console w) ->
  status w' l = Some msg.
Proof.
  unfold status, emit, emitLog. intros -> ->.
  now destruct (cmdLine (heap w l)) eqn:Hc; simpl; rewrite ?Hc.
Qed.

Lemma not_found_suffix bw q :
  endsWith (isearchMessage bw q false) " (not found)" = true.
Proof. unfold isearchMessage. apply endsWith_app. Qed.

(** C7. [cancelSearch(reset)] on a running session stashes the query into
    [$prevNeedle], empties the query, on [reset] moves the caret and the
    anchor back to [$startPos], clears the highlight and forces a redraw, and
    returns the zero-length range at the (possibly restored) anchor. *)
Theorem cancelSearch_spec (w : World RE) l sp cp (reset : bool) :
  active w l sp cp ->
  let a := if reset then sp else cp in
  let w' := exec (cancelSearch reset) w in
  result (cancelSearch reset) w = Normal (Range.fromPoints a a)
  /\ prevNeedle (this w') = needle (options (this w))
  /\ needle (options (this w')) = Some ""
  /\ currentPos (this w') = Some a
  /\ cursor (heap w' l) = (if reset then sp else cursor (heap w l))
  /\ startPos (this w') = Some sp
  /\ editor (this w') = Some l
  /\ searchHighlight (session (heap w' l)) = None
  /\ calls (heap w' l) =
       ([CUpdateBackMarkers; CHighlight None]
        ++ (if reset then [CMoveCursorToPosition sp] else [])
        ++ calls (heap w l))%list.
Proof.
  intros H. open_world w H.
  unfold exec, result, cancelSearch. unfold_monad.
  destruct reset; simpl; rewrite ?upd_same; simpl; repeat split; reflexivity.
Qed.

(** C1. When the finder has no match for the query that [addChar] or
    [removeChar] proposes, the call returns nothing and leaves the caret, the
    anchor and the highlight as they were: the editor receives no call but
    the status update, the controller changes only its stored query (and the
    [start] and [re] scratch fields of [$options]), and the status text ends
    with " (not found)". *)
Theorem failed_edit_leaves_surface (w : World RE) l sp cp (op : Op) :
  active w l sp cp ->
  isEdit op = true ->
  let q := candidate (updateOf op) w in
  String.length q <> 0 ->
  find (session (heap w l)) (searchOptions w q) = None ->
  let w' := exec (run op) w in
  let msg := isearchMessage (backwards (options (this w))) q false in
  result (run op) w = Normal None
  /\ cursor (heap w' l) = cursor (heap w l)
  /\ currentPos (this w') = Some cp
  /\ startPos (this w') = Some sp
  /\ session (heap w' l) = session (heap w l)
  /\ selectionIsEmpty (heap w' l) = selectionIsEmpty (heap w l)
  /\ handlers (heap w' l) = handlers (heap w l)
  /\ calls (heap w' l) = (statusCall (heap w l) msg ++ calls (heap w l))%list
  /\ (forall l', l' <> l -> heap w' l' = heap w l')
  /\ needle (options (this w')) = Some q
  /\ prevNeedle (this w') = prevNeedle (this w)
  /\ backwards (options (this w')) = backwards (options (this w))
  /\ wrap (options (this w')) = wrap (options (this w))
  /\ skipCurrent (options (this w')) = skipCurrent (options (this w))
  /\ editor (this w') = Some l
  /\ status w' l = Some msg
  /\ endsWith msg " (not found)" = true.
Proof.
  intros Ha Hop q Hq Hf w' msg.
  assert (Hr : run op w = highlightAndFindWithNeedle false (Some (updateOf op)) w).
  { destruct Ha as (He & _). destruct op; try discriminate; reflexivity. }
  destruct (search_not_found w l false (updateOf op) (proj1 Ha) Hq Hf)
    as (R & T & Hl & Ho & Hc).
  unfold exec, result in *. subst w'. rewrite Hr.
  destruct Ha as (He & Hs & Hcp).
  rewrite R, T, Hl.
  rewrite emit_cursor, emit_session, emit_selection, emit_handlers, emit_calls.
  simpl. repeat split; auto.
  - apply (emit_status w _ l msg Hl Hc).
  - apply not_found_suffix.
Qed.

(** C3. Whenever the query proposed to a running session has zero length,
    [addChar], [removeChar] and [next] do what [cancelSearch(true)] does on
    the session with its query emptied and return its result: the caret and
    the anchor are back at [$startPos] and the range returned is the empty
    range there.  The right-hand side of the first equation does not mention
    the finder: it is not consulted. *)
Theorem empty_query_resets (w : World RE) l sp cp (op : Op) :
  active w l sp cp ->
  isSearch op = true ->
  String.length (candidate (updateOf op) w) = 0 ->
  let w' := exec (run op) w in
  run op w
  = bind (cancelSearch true) (fun r => ret (Some r))
      (exec (modifyOptions (set_needle (Some ""))) (reanchor op w))
  /\ result (run op) w = Normal (Some (Range.fromPoints sp sp))
  /\ cursor (heap w' l) = sp
  /\ currentPos (this w') = Some sp
  /\ startPos (this w') = Some sp
  /\ needle (options (this w')) = Some ""
  /\ calls (heap w' l) =
       ([CUpdateBackMarkers; CHighlight None; CMoveCursorToPosition sp]
        ++ calls (heap w l))%list.
Proof.
  intros Ha Hop Hq w'.
  pose proof (reanchor_active op w l sp cp Ha) as (He1 & Hs1 & _).
  rewrite <- reanchor_candidate in Hq.
  destruct (search_empty (reanchor op w) l sp (advances op) (updateOf op)
              He1 Hs1 Hq) as (E & R & T & Hl & _).
  unfold exec, result in *. subst w'.
  rewrite (run_search op w l Hop (proj1 Ha)).
  rewrite R, T, Hl. simpl.
  assert (Hh : heap (reanchor op w) l = heap w l).
  { unfold reanchor. destruct op; try reflexivity.
    destruct (editor (this w)); reflexivity. }
  assert (Hsp : startPos (this (reanchor op w)) = Some sp) by exact Hs1.
  rewrite Hh. repeat split; auto.
Qed.

(** C5. A successful search run backwards returns the finder's range with
    its two ends exchanged and puts the caret on the end of that reversed
    range, which is the start of the range the finder produced; a successful
    search run forwards returns the finder's range as it is and puts the
    caret on its end.  The direction is the one in force when the finder
    runs, which for [next] is the one given in its argument. *)
Theorem successful_search_orientation (w : World RE) l (op : Op) r :
  editor (this w) = Some l ->
  isSearch op = true ->
  let w1 := reanchor op w in
  let q := candidate (updateOf op) w in
  String.length q <> 0 ->
  find (session (heap w l)) (searchOptions w1 q) = Some r ->
  let w' := exec (run op) w in
  (truthy (backwards (options (this w1))) = true ->
     result (run op) w
     = Normal (Some (Range.fromPoints (Range.end_ r) (Range.start r)))
     /\ cursor (heap w' l) = Range.start r)
  /\ (truthy (backwards (options (this w1))) = false ->
     result (run op) w = Normal (Some r)
     /\ cursor (heap w' l) = Range.end_ r).
Proof.
  intros He Hop w1 q Hq Hf w'.
  assert (He1 : editor (this w1) = Some l).
  { subst w1. unfold reanchor. destruct op; auto. rewrite He. exact He. }
  assert (Hh : heap w1 l = heap w l).
  { subst w1. unfold reanchor. destruct op; try reflexivity.
    destruct (editor (this w)); reflexivity. }
  subst q. rewrite <- (reanchor_candidate op w) in Hq, Hf. fold w1 in Hq, Hf.
  rewrite <- Hh in Hf.
  destruct (search_found w1 l (advances op) (updateOf op) r He1 Hq Hf)
    as (R & _ & Hl & _).
  unfold exec, result in *. subst w'.
  rewrite (run_search op w l Hop He). fold w1.
  rewrite R, Hl, emit_cursor. unfold oriented. simpl.
  split; intros ->; split; reflexivity.
Qed.

(** C2. On a running session [addChar] and [removeChar] leave the
    anchor where it is when the query they arrive at is non-empty.  The
    anchor moves on [next], which first puts it on the caret and, when the
    search succeeds, then on the end of the match as returned; and it moves
    back to [$startPos] whenever [cancelSearch(true)] runs: called directly,
    through [deactivate(true)], or because the proposed query is empty. *)
Theorem anchor_motion (w : World RE) l sp cp (op : Op) :
  active w l sp cp ->
  let w' := exec (run op) w in
  let q := candidate (updateOf op) w in
  currentPos (this w') =
    match op with
    | OAddChar _ | ORemoveChar =>
        if Nat.eqb (String.length q) 0 then Some sp else Some cp
    | ONext _ =>
        if Nat.eqb (String.length q) 0 then Some sp
        else match result (run op) w with
             | Normal (Some r) => Some (Range.end_ r)
             | _ => Some (cursor (heap w l))
             end
    | OCancelSearch reset | ODeactivate reset =>
        if reset then Some sp else Some cp
    end.
Proof.
  intros Ha w' q.
  assert (Hsearch : isSearch op = true ->
    currentPos (this w') =
      if Nat.eqb (String.length q) 0 then Some sp
      else match result (run op) w with
           | Normal (Some r) =>
               if advances op then Some (Range.end_ r) else Some cp
           | _ => if advances op then Some (cursor (heap w l)) else Some cp
           end).
  { intros Hop.
    pose proof (reanchor_active op w l sp cp Ha) as (He1 & Hs1 & Hc1).
    assert (Hh : heap (reanchor op w) l = heap w l).
    { unfold reanchor. destruct op; try reflexivity.
      destruct (editor (this w)); reflexivity. }
    subst w' q. unfold exec, result.
    rewrite (run_search op w l Hop (proj1 Ha)).
    rewrite <- (reanchor_candidate op w).
    destruct (Nat.eqb (String.length (candidate (updateOf op) (reanchor op w))) 0)
      eqn:Hq.
    - apply Nat.eqb_eq in Hq.
      destruct (search_empty _ l sp (advances op) _ He1 Hs1 Hq)
        as (_ & _ & T & _).
      unfold exec in T. rewrite T. reflexivity.
    - apply Nat.eqb_neq in Hq.
      destruct (find (session (heap (reanchor op w) l))
                  (searchOptions (reanchor op w)
                     (candidate (updateOf op) (reanchor op w)))) as [r|] eqn:Hf.
      + destruct (search_found _ l (advances op) _ r He1 Hq Hf)
          as (R & T & _).
        unfold exec, result in *. rewrite R, T.
        destruct (advances op); simpl; [reflexivity | exact Hc1].
      + destruct (search_not_found _ l (advances op) _ He1 Hq Hf)
          as (R & T & _).
        unfold exec, result in *. rewrite R, T. simpl. rewrite Hc1.
        now destruct (advances op). }
  destruct op; simpl in *.
  - rewrite (Hsearch eq_refl).
    destruct (Nat.eqb (String.length q) 0); [reflexivity|].
    destruct (result _ w) as [[r|]|]; reflexivity.
  - rewrite (Hsearch eq_refl).
    destruct (Nat.eqb (String.length q) 0); [reflexivity|].
    destruct (result _ w) as [[r|]|]; reflexivity.
  - rewrite (Hsearch eq_refl). reflexivity.
  - destruct (cancelSearch_active w l sp cp reset Ha) as (R & T & _).
    subst w'. unfold exec, result in *. unfold bind, ret.
    destruct (cancelSearch reset w) as [[a|] w1]; simpl in *; try discriminate.
    rewrite T. now destruct reset.
  - destruct (deactivate_active w l sp cp reset Ha) as (R & T & _).
    subst w'. unfold exec, result in *. unfold bind, ret.
    destruct (deactivate reset w) as [[a|] w1]; simpl in *; try discriminate.
    rewrite T. now destruct reset.
Qed.

(** Before any activation [next] reads the caret of an editor that is not
    there yet and throws. *)
Lemma next_without_editor_throws (w : World RE) opts :
  editor (this w) = None -> result (next opts) w = TypeError.
Proof.
  intros He. unfold result, next. unfold_monad. simpl. now rewrite He.
Qed.

(** C4. As long as the controller has no editor, that is before
    its first activation, [addChar] and [removeChar] return nothing, change
    nothing and do not throw.  [deactivate] completes normally on a running
    session and leaves the controller's editor in place, so that guard is
    not in force after it. *)
Theorem edits_without_editor_do_nothing (w : World RE) :
  (forall op, isEdit op = true -> editor (this w) = None ->
     run op w = (Normal None, w))
  /\ (forall l sp cp reset, active w l sp cp ->
        result (deactivate reset) w = Normal tt
        /\ editor (this (exec (deactivate reset) w)) = Some l).
Proof.
  split.
  - intros op Hop He. destruct op; try discriminate; simpl;
      now apply search_no_editor.
  - intros l sp cp reset Ha.
    destruct (deactivate_active w l sp cp reset Ha) as (R & T & _).
    split; [exact R|]. rewrite T. simpl. exact (proj1 Ha).
Qed.

(** C6. [next(opts)] on a running session sets the direction to
    [!!opts.backwards], puts the anchor on the caret and searches from
    there with the anchor advancing.  The query searched is the stored one,
    or, when that is empty and [useCurrentOrPrevSearch] is set, the previous
    query (empty when there is none).  A non-empty query searched becomes the
    stored query and stays so after the call; an empty one takes the reset
    path. *)
Theorem next_commits_query (w : World RE) l sp cp
    (opts : option NextOptions.t) :
  active w l sp cp ->
  let o := optsOf opts in
  let here := cursor (heap w l) in
  let q0 := orEmpty (needle (options (this w))) in
  let q := if truthy (NextOptions.useCurrentOrPrevSearch o)
              && Nat.eqb (String.length q0) 0
           then orEmpty (prevNeedle (this w)) else q0 in
  let w1 := reanchor (ONext opts) w in
  let w' := exec (next opts) w in
  next opts w = highlightAndFindWithNeedle true (Some (nextUpdate o)) w1
  /\ backwards (options (this w1)) = Some (truthy (NextOptions.backwards o))
  /\ currentPos (this w1) = Some here
  /\ candidate (nextUpdate o) w1 = q
  /\ backwards (options (this w')) = Some (truthy (NextOptions.backwards o))
  /\ (String.length q <> 0 ->
        needle (options (this w')) = Some q
        /\ start (options (this w')) = Some here
        /\ currentPos (this w') =
             match find (session (heap w l)) (searchOptions w1 q) with
             | Some r =>
                 Some (Range.end_ (oriented (backwards (options (this w1))) r))
             | None => Some here
             end)
  /\ (String.length q = 0 ->
        needle (options (this w')) = Some ""
        /\ currentPos (this w') = Some sp).
Proof.
  intros Ha o here q0 q w1 w'.
  pose proof (reanchor_active (ONext opts) w l sp cp Ha) as (He1 & Hs1 & Hc1).
  fold w1 in He1, Hs1, Hc1. simpl in Hc1.
  assert (Hh : heap w1 l = heap w l).
  { subst w1. unfold reanchor. destruct (editor (this w)); reflexivity. }
  assert (Hb : backwards (options (this w1))
               = Some (truthy (NextOptions.backwards o))).
  { subst w1. unfold reanchor. rewrite (proj1 Ha). reflexivity. }
  assert (Hq1 : candidate (nextUpdate o) w1 = q).
  { subst w1. unfold reanchor. rewrite (proj1 Ha). reflexivity. }
  assert (Hr : next opts w
               = highlightAndFindWithNeedle true (Some (nextUpdate o)) w1)
    by exact (run_search (ONext opts) w l eq_refl (proj1 Ha)).
  subst w'. unfold exec. rewrite Hr.
  split; [reflexivity|]. split; [exact Hb|]. split; [exact Hc1|].
  split; [exact Hq1|].
  destruct (Nat.eqb (String.length q) 0) eqn:Hq.
  - apply Nat.eqb_eq in Hq.
    assert (Hq' := Hq). rewrite <- Hq1 in Hq'.
    destruct (search_empty w1 l sp true _ He1 Hs1 Hq') as (_ & _ & T & _).
    unfold exec in T. rewrite T. simpl.
    split; [exact Hb|]. split; [intros Hn; contradiction|].
    intros _. split; reflexivity.
  - apply Nat.eqb_neq in Hq.
    assert (Hq' := Hq). rewrite <- Hq1 in Hq'.
    rewrite <- Hh. rewrite <- Hq1.
    destruct (find (session (heap w1 l))
                (searchOptions w1 (candidate (nextUpdate o) w1)))
      as [r|] eqn:Hf.
    + destruct (search_found w1 l true _ r He1 Hq' Hf) as (_ & T & _).
      unfold exec in T. rewrite T. simpl.
      split; [exact Hb|]. split; [|intros Hn; rewrite Hq1 in Hn; contradiction].
      intros _. repeat split; auto.
    + destruct (search_not_found w1 l true _ He1 Hq' Hf) as (_ & T & _).
      unfold exec in T. rewrite T. simpl.
      split; [exact Hb|]. split; [|intros Hn; rewrite Hq1 in Hn; contradiction].
      intros _. repeat split; auto.
Qed.

(** C8. [activate] on a session that is already running does not
    deactivate it first and is not a no-op.  It overwrites [$startPos] and
    the anchor with the caret, empties the query without stashing it in
    [$prevNeedle], leaves the highlight as it is, and calls
    [addKeyboardHandler] with its keyboard handler once more; the editor
    receives no [removeKeyboardHandler] and no [highlight(null)]. *)
Theorem activate_on_running_session (w : World RE) l sp cp (b : bool) :
  active w l sp cp ->
  let e := heap w l in
  let here := cursor e in
  let w' := exec (activate l b) w in
  result (activate l b) w = Normal tt
  /\ startPos (this w') = Some here
  /\ currentPos (this w') = Some here
  /\ needle (options (this w')) = Some ""
  /\ backwards (options (this w')) = Some b
  /\ prevNeedle (this w') = prevNeedle (this w)
  /\ editor (this w') = Some l
  /\ session (heap w' l) = session e
  /\ cursor (heap w' l) = here
  /\ calls (heap w' l) =
       (statusCall e (isearchMessage (Some b) "" true)
        ++ (if selectionIsEmpty e && negb (isSome (emacsMark (session e)))
            then [CClearSelection] else [])
        ++ [CAddKeyboardHandler (keyboardHandler (this w))]
        ++ calls e)%list.
Proof.
  intros _ e here w'.
  destruct (activate_run w l b) as (R & T & Hl & _).
  fold e here w' in R, T, Hl. rewrite R, T, Hl.
  rewrite emit_cursor, emit_session, emit_calls.
  unfold statusCall.
  destruct (selectionIsEmpty e && negb (isSome (emacsMark (session e))));
    simpl; repeat split; reflexivity.
Qed.

(** C9. On [activate] the controller calls [clearSelection]
    exactly when the editor reports an empty selection and no mark is set;
    a selection the editor reports as non-empty, and any selection while a
    mark is set, is left alone.  Either way the editor reports the same
    selection emptiness after the call as before. *)
Theorem activate_selectionFix (w : World RE) l (b : bool) :
  let e := heap w l in
  let w' := exec (activate l b) w in
  let kb := keyboardHandler (this w) in
  let st := statusCall e (isearchMessage (Some b) "" true) in
  calls (heap w' l) =
    (if selectionIsEmpty e && negb (isSome (emacsMark (session e)))
     then st ++ [CClearSelection; CAddKeyboardHandler kb] ++ calls e
     else st ++ [CAddKeyboardHandler kb] ++ calls e)%list
  /\ selectionIsEmpty (heap w' l) = selectionIsEmpty e.
Proof.
  intros e w' kb st.
  destruct (activate_run w l b) as (_ & _ & Hl & _).
  fold e w' kb in Hl. rewrite Hl.
  rewrite emit_selection, emit_calls. subst st. unfold statusCall.
  destruct (selectionIsEmpty e) eqn:Hs;
    destruct (emacsMark (session e)) eqn:Hm; simpl;
    rewrite ?Hs; split; reflexivity.
Qed.

(** C10. Every run of the empty-query reset path stores in [$prevNeedle]
    the query as it stands when [cancelSearch] runs, which is the empty
    string.  So after [removeChar] on a query that is already empty
    [$prevNeedle] is empty whatever it held before, and a following [next]
    with [useCurrentOrPrevSearch] set proposes the empty string and resets
    again, without asking the finder. *)
Theorem empty_reset_overwrites_prevNeedle (w : World RE) l sp cp :
  active w l sp cp ->
  (forall op, isSearch op = true ->
     String.length (candidate (updateOf op) w) = 0 ->
     prevNeedle (this (exec (run op) w)) = Some "")
  /\ (String.length (orEmpty (needle (options (this w)))) = 0 ->
      let w1 := exec removeChar w in
      prevNeedle (this w1) = Some ""
      /\ needle (options (this w1)) = Some ""
      /\ active w1 l sp sp
      /\ forall o, NextOptions.useCurrentOrPrevSearch o = Some true ->
           let w2 := exec (next (Some o)) w1 in
           next (Some o) w1
           = bind (cancelSearch true) (fun r => ret (Some r))
               (exec (modifyOptions (set_needle (Some "")))
                  (reanchor (ONext (Some o)) w1))
           /\ result (next (Some o)) w1
              = Normal (Some (Range.fromPoints sp sp))
           /\ cursor (heap w2 l) = sp
           /\ needle (options (this w2)) = Some ""
           /\ prevNeedle (this w2) = Some "").
Proof.
  intros Ha.
  assert (Hall : forall (v : World RE) ap op, active v l sp ap ->
            isSearch op = true ->
            String.length (candidate (updateOf op) v) = 0 ->
            let v' := exec (run op) v in
            run op v
            = bind (cancelSearch true) (fun r => ret (Some r))
                (exec (modifyOptions (set_needle (Some ""))) (reanchor op v))
            /\ result (run op) v = Normal (Some (Range.fromPoints sp sp))
            /\ this v' = set_currentPos (Some sp)
                 (set_options
                    (set_needle (Some "") (options (this (reanchor op v))))
                    (set_prevNeedle (Some "") (this (reanchor op v))))
            /\ cursor (heap v' l) = sp).
  { intros v ap op Hv Hop Hq v'.
    pose proof (reanchor_active op v l sp ap Hv) as (He1 & Hs1 & _).
    rewrite <- reanchor_candidate in Hq.
    destruct (search_empty (reanchor op v) l sp (advances op) (updateOf op)
                He1 Hs1 Hq) as (E & R & T & Hl & _).
    subst v'. unfold exec, result in *.
    rewrite (run_search op v l Hop (proj1 Hv)).
    rewrite R, T, Hl. repeat split; auto. }
  split.
  - intros op Hop Hq.
    destruct (Hall w cp op Ha Hop Hq) as (_ & _ & T & _).
    rewrite T. reflexivity.
  - intros Hq w1.
    assert (Hq1 : String.length (candidate (updateOf ORemoveChar) w) = 0).
    { unfold candidate. simpl. unfold removeCharUpdate.
      apply length_zero in Hq. rewrite Hq. reflexivity. }
    destruct (Hall w cp ORemoveChar Ha eq_refl Hq1) as (_ & _ & T & _).
    simpl in T. fold w1 in T.
    destruct Ha as (He & Hs & Hc).
    assert (Ha1 : active w1 l sp sp).
    { unfold active. rewrite T. simpl. auto. }
    split; [rewrite T; reflexivity|].
    split; [rewrite T; reflexivity|].
    split; [exact Ha1|].
    intros o Ho w2.
    assert (Hq2 : String.length (candidate (updateOf (ONext (Some o))) w1) = 0).
    { unfold candidate. simpl. unfold nextUpdate.
      rewrite T. simpl. rewrite Ho. reflexivity. }
    destruct (Hall w1 sp (ONext (Some o)) Ha1 eq_refl Hq2) as (E & R & T2 & C).
    split; [exact E|]. split; [exact R|]. split; [exact C|].
    change (this w2) with (this (exec (run (ONext (Some o))) w1)).
    rewrite T2. split; reflexivity.
Qed.

(** ** Further properties of the controller *)

Lemma reanchor_heap (op : Op) (w : World RE) : heap (reanchor op w) = heap w.
Proof.
  unfold reanchor. destruct op; try reflexivity.
  destruct (editor (this w)); reflexivity.
Qed.

Lemma reanchor_console (op : Op) (w : World RE) :
  console (reanchor op w) = console w.
Proof.
  unfold reanchor. destruct op; try reflexivity.
  destruct (editor (this w)); reflexivity.
Qed.

Lemma reanchor_fixed (op : Op) (w : World RE) :
  wrap (options (this (reanchor op w))) = wrap (options (this w))
  /\ skipCurrent (options (this (reanchor op w))) = skipCurrent (options (this w))
  /\ keyboardHandler (this (reanchor op w)) = keyboardHandler (this w)
  /\ needle (options (this (reanchor op w))) = needle (options (this w))
  /\ prevNeedle (this (reanchor op w)) = prevNeedle (this w).
Proof.
  unfold reanchor. destruct op; try (repeat split; reflexivity).
  destruct (editor (this w)); repeat split; reflexivity.
Qed.

(** One call on a running session: it returns, the session keeps its editor
    and its start position, and nothing outside that editor is touched. *)
Lemma run_step (op : Op) (w : World RE) l sp cp :
  active w l sp cp ->
  let w' := exec (run op) w in
  exists v cp',
    result (run op) w = Normal v
    /\ active w' l sp cp'
    /\ (forall l', l' <> l -> heap w' l' = heap w l')
    /\ wrap (options (this w')) = wrap (options (this w))
    /\ skipCurrent (options (this w')) = skipCurrent (options (this w))
    /\ keyboardHandler (this w') = keyboardHandler (this w).
Proof.
  intros Ha w'. subst w'. unfold active, exec, result.
  destruct (isSearch op) eqn:Hop.
  - pose proof (reanchor_active op w l sp cp Ha) as (He1 & Hs1 & Hc1).
    destruct (reanchor_fixed op w) as (Fw & Fs & Fk & _).
    rewrite (run_search op w l Hop (proj1 Ha)).
    destruct (Nat.eqb (String.length (candidate (updateOf op) (reanchor op w))) 0)
      eqn:Hq.
    + apply Nat.eqb_eq in Hq.
      destruct (search_empty _ l sp (advances op) _ He1 Hs1 Hq)
        as (_ & R & T & _ & Ho & _).
      unfold exec, result in *. rewrite R, T. simpl.
      eexists. exists sp. split; [reflexivity|].
      split; [repeat split; auto|].
      split; [intros l' Hl; rewrite (Ho l' Hl), reanchor_heap; reflexivity|].
      auto.
    + apply Nat.eqb_neq in Hq.
      destruct (find (session (heap (reanchor op w) l))
                  (searchOptions (reanchor op w)
                     (candidate (updateOf op) (reanchor op w)))) as [r|] eqn:Hf.
      * destruct (search_found _ l (advances op) _ r He1 Hq Hf)
          as (R & T & _ & Ho & _).
        unfold exec, result in *. rewrite R, T.
        destruct (advances op); simpl;
          (eexists; eexists; split; [reflexivity|];
           split; [repeat split; eauto|];
           split; [intros l' Hl; rewrite (Ho l' Hl), reanchor_heap; reflexivity|];
           auto).
      * destruct (search_not_found _ l (advances op) _ He1 Hq Hf)
          as (R & T & _ & Ho & _).
        unfold exec, result in *. rewrite R, T. simpl.
        eexists. eexists. split; [reflexivity|].
        split; [repeat split; eauto|].
        split; [intros l' Hl; rewrite (Ho l' Hl), reanchor_heap; reflexivity|].
        auto.
  - destruct Ha as (He & Hs & Hc).
    destruct op; try discriminate; simpl in *.
    + destruct (cancelSearch_active w l sp cp reset (conj He (conj Hs Hc)))
        as (R & T & _ & Ho & _).
      unfold exec, result in *. unfold bind, ret.
      destruct (cancelSearch reset w) as [[a|] w1]; simpl in *;
        try discriminate.
      rewrite T. eexists. eexists. split; [reflexivity|].
      simpl. repeat split; eauto.
    + destruct (deactivate_active w l sp cp reset (conj He (conj Hs Hc)))
        as (R & T & _ & Ho & _).
      unfold exec, result in *. unfold bind, ret.
      destruct (deactivate reset w) as [[a|] w1]; simpl in *;
        try discriminate.
      rewrite T. eexists. eexists. split; [reflexivity|].
      simpl. repeat split; eauto.
Qed.

Lemma performAll_cons (a : Action) (rest : list Action) (w : World RE) v :
  result (perform a) w = Normal v ->
  performAll (a :: rest) w = performAll rest (exec (perform a) w).
Proof.
  unfold result, exec. simpl. unfold bind.
  destruct (perform a w) as [[x|] w1]; simpl; [reflexivity | discriminate].
Qed.

(** X1. Once a session is running, whatever the host calls next and in whatever
    order ([addChar], [removeChar], [next], [cancelSearch], [deactivate] or
    another [activate]), no call throws and the controller still has an
    editor, a start position and an anchor afterwards. *)
Theorem running_session_never_throws (script : list Action) (w : World RE) :
  (exists l sp cp, active w l sp cp) ->
  result (performAll script) w = Normal tt
  /\ exists l sp cp, active (exec (performAll script) w) l sp cp.
Proof.
  revert w. induction script as [|a rest IH]; intros w Hw.
  - split; [reflexivity | exact Hw].
  - destruct Hw as (l & sp & cp & Ha).
    assert (Hstep : exists v, result (perform a) w = Normal v
              /\ exists l sp cp, active (exec (perform a) w) l sp cp).
    { destruct a as [op | l' b]; simpl.
      - destruct (run_step op w l sp cp Ha) as (v & cp' & R & A & _).
        exists v. split; [exact R|]. eauto.
      - destruct (activate_run w l' b) as (R & T & _).
        unfold exec, result in *. unfold bind, ret.
        destruct (activate l' b w) as [[x|] w1]; simpl in *; try discriminate.
        eexists. split; [reflexivity|].
        exists l', (cursor (heap w l')), (cursor (heap w l')).
        unfold active. rewrite T. simpl. auto. }
    destruct Hstep as (v & R & Hw').
    unfold result, exec. rewrite (performAll_cons a rest w v R).
    exact (IH _ Hw').
Qed.

(** X2. Across any sequence of [addChar], [removeChar], [next], [cancelSearch]
    and [deactivate] calls a session keeps the editor and the start position
    it was activated with; the other editors, [wrap], [skipCurrent] and the
    keyboard handler are left as they were. *)
Theorem start_position_is_fixed (ops : list Op) (w : World RE) l sp cp :
  active w l sp cp ->
  let w' := exec (performAll (acts ops)) w in
  editor (this w') = Some l
  /\ startPos (this w') = Some sp
  /\ (forall l', l' <> l -> heap w' l' = heap w l')
  /\ wrap (options (this w')) = wrap (options (this w))
  /\ skipCurrent (options (this w')) = skipCurrent (options (this w))
  /\ keyboardHandler (this w') = keyboardHandler (this w).
Proof.
  revert w cp. induction ops as [|op rest IH]; intros w cp Ha w'.
  - destruct Ha as (He & Hs & _). subst w'. simpl. repeat split; auto.
  - destruct (run_step op w l sp cp Ha) as (v & cp' & R & A & Ho & Fw & Fs & Fk).
    subst w'. unfold exec. simpl acts.
    rewrite (performAll_cons (Act op) (acts rest) w v R).
    destruct (IH _ cp' A) as (He & Hs & Ho' & Fw' & Fs' & Fk').
    unfold exec in *. simpl perform in *.
    split; [exact He|]. split; [exact Hs|].
    split; [intros l' Hl; rewrite (Ho' l' Hl); exact (Ho l' Hl)|].
    split; [congruence|]. split; congruence.
Qed.

Lemma needle_after_search (op : Op) (w : World RE) l sp cp :
  active w l sp cp -> isSearch op = true ->
  needle (options (this (exec (run op) w)))
  = Some (candidate (updateOf op) w).
Proof.
  intros Ha Hop.
  pose proof (reanchor_active op w l sp cp Ha) as (He1 & Hs1 & _).
  unfold exec. rewrite (run_search op w l Hop (proj1 Ha)).
  rewrite <- (reanchor_candidate op w).
  destruct (Nat.eqb (String.length (candidate (updateOf op) (reanchor op w))) 0)
    eqn:Hq.
  - apply Nat.eqb_eq in Hq.
    destruct (search_empty _ l sp (advances op) _ He1 Hs1 Hq) as (_ & _ & T & _).
    unfold exec in T. rewrite T. simpl.
    apply length_zero in Hq. now rewrite Hq.
  - apply Nat.eqb_neq in Hq.
    destruct (find (session (heap (reanchor op w) l))
                (searchOptions (reanchor op w)
                   (candidate (updateOf op) (reanchor op w)))) as [r|] eqn:Hf.
    + destruct (search_found _ l (advances op) _ r He1 Hq Hf) as (_ & T & _).
      unfold exec in T. rewrite T. now destruct (advances op).
    + destruct (search_not_found _ l (advances op) _ He1 Hq Hf) as (_ & T & _).
      unfold exec in T. now rewrite T.
Qed.

Lemma substring_length (s : string) n :
  n <= String.length s -> String.length (String.substring 0 n s) = n.
Proof.
  revert n. induction s as [|a s IH]; intros [|n] H; simpl in *;
    try reflexivity; try lia.
  rewrite IH; [reflexivity | lia].
Qed.

Lemma dropLast_length (s : string) :
  String.length (dropLast s) = String.length s - 1.
Proof. unfold dropLast. apply substring_length. lia. Qed.

Lemma dropLast_app (q c : string) :
  String.length c = 1 -> dropLast (q ++ c) = q.
Proof.
  intros Hc. destruct c as [|a [|b c]]; try discriminate. clear Hc.
  unfold dropLast. induction q as [|x q IH]; simpl.
  - reflexivity.
  - rewrite Nat.sub_0_r.
    destruct (String.length (q ++ String a "")) as [|n] eqn:Hl.
    + destruct q; discriminate.
    + simpl in IH. rewrite Nat.sub_0_r in IH. now rewrite IH.
Qed.

(** X3. The stored query follows the keys whether or not anything is found:
    [addChar(c)] appends [c], [removeChar()] drops the last character, and
    typing one character and deleting it again gives the query back. *)
Theorem edits_build_the_query (w : World RE) l sp cp (c : string) :
  active w l sp cp ->
  let q := orEmpty (needle (options (this w))) in
  needle (options (this (exec (addChar c) w))) = Some (q ++ c)
  /\ needle (options (this (exec removeChar w))) = Some (dropLast q)
  /\ (String.length c = 1 ->
      needle (options (this (exec removeChar (exec (addChar c) w)))) = Some q).
Proof.
  intros Ha q.
  assert (Hrem : forall (v : World RE) ap, active v l sp ap ->
            needle (options (this (exec removeChar v)))
            = Some (dropLast (orEmpty (needle (options (this v)))))).
  { intros v ap Hv.
    pose proof (needle_after_search ORemoveChar v l sp ap Hv eq_refl) as H.
    change (run ORemoveChar) with removeChar in H. rewrite H.
    unfold candidate. simpl. unfold removeCharUpdate.
    destruct (orEmpty (needle (options (this v)))); reflexivity. }
  pose proof (needle_after_search (OAddChar c) w l sp cp Ha eq_refl) as Hadd.
  change (run (OAddChar c)) with (addChar c) in Hadd.
  split; [exact Hadd|]. split; [exact (Hrem w cp Ha)|].
  intros Hc.
  destruct (run_step (OAddChar c) w l sp cp Ha) as (v & cp' & _ & A & _).
  change (run (OAddChar c)) with (addChar c) in A.
  rewrite (Hrem _ cp' A), Hadd. simpl.
  unfold candidate. simpl. unfold addCharUpdate. fold q.
  now rewrite (dropLast_app q c Hc).
Qed.

(** X4. [removeChar()] makes the stored query exactly one character shorter,
    and leaves an empty query empty. *)
Theorem removeChar_shortens_query (w : World RE) l sp cp :
  active w l sp cp ->
  String.length (orEmpty (needle (options (this (exec removeChar w)))))
  = String.length (orEmpty (needle (options (this w)))) - 1.
Proof.
  intros Ha.
  pose proof (needle_after_search ORemoveChar w l sp cp Ha eq_refl) as H.
  change (run ORemoveChar) with removeChar in H. rewrite H. simpl.
  unfold candidate. simpl. unfold removeCharUpdate.
  destruct (orEmpty (needle (options (this w)))) as [|a q] eqn:Hq;
    [reflexivity|].
  change (Nat.ltb 0 (String.length (String a q))) with true. cbv iota.
  apply dropLast_length.
Qed.

(** X5. A search that finds something tells the editor, in this order, to move
    the caret to the end of the match, to highlight the pattern compiled for
    this very query, and to redraw the markers; then the status shows the
    direction and the query, with nothing appended. *)
Theorem successful_search_updates_editor (w : World RE) l (op : Op) r :
  editor (this w) = Some l ->
  isSearch op = true ->
  let w1 := reanchor op w in
  let q := candidate (updateOf op) w in
  String.length q <> 0 ->
  find (session (heap w l)) (searchOptions w1 q) = Some r ->
  let w' := exec (run op) w in
  let bw := backwards (options (this w1)) in
  let pat := Some (assembleRegExp (searchOptions w1 q)) in
  let msg := (if truthy bw then "reverse-" else "") ++ "isearch: " ++ q in
  calls (heap w' l) =
    (statusCall (heap w l) msg
     ++ [CUpdateBackMarkers; CHighlight pat;
         CMoveCursorToPosition (Range.end_ (oriented bw r))]
     ++ calls (heap w l))%list
  /\ searchHighlight (session (heap w' l)) = pat
  /\ status w' l = Some msg
  /\ needle (options (this w')) = Some q
  /\ start (options (this w')) = currentPos (this w1).
Proof.
  intros He Hop w1 q Hq Hf w' bw pat msg.
  assert (He1 : editor (this w1) = Some l).
  { subst w1. unfold reanchor. destruct op; auto. rewrite He. exact He. }
  assert (Hh : heap w1 l = heap w l) by (subst w1; now rewrite reanchor_heap).
  subst q. rewrite <- (reanchor_candidate op w) in Hq, Hf. fold w1 in Hq, Hf.
  rewrite <- Hh in Hf.
  destruct (search_found w1 l (advances op) (updateOf op) r He1 Hq Hf)
    as (_ & T & Hl & _ & Hc).
  subst w' pat msg bw. unfold exec in *.
  rewrite (run_search op w l Hop He). fold w1.
  rewrite <- (reanchor_candidate op w). fold w1.
  split.
  { rewrite Hl, emit_calls. unfold statusCall. simpl. rewrite Hh.
    reflexivity. }
  split.
  { rewrite Hl, emit_session. reflexivity. }
  split.
  { unfold status. rewrite Hl, Hc. unfold emit, emitLog, isearchMessage.
    cbn [cmdLine updateBackMarkers highlight moveCursorToPosition logged].
    destruct (cmdLine (heap w1 l)) eqn:Hcl;
      cbn [cmdLine setValue updateBackMarkers highlight moveCursorToPosition
           logged hd_error]; rewrite ?Hcl; reflexivity. }
  rewrite T. destruct (advances op); split; reflexivity.
Qed.

(** X6. When the proposed query is empty the session is reset without a word:
    no status is emitted, so the command line and the console still show
    what they showed before. *)
Theorem empty_reset_keeps_status (w : World RE) l sp cp (op : Op) :
  active w l sp cp ->
  isSearch op = true ->
  String.length (candidate (updateOf op) w) = 0 ->
  let w' := exec (run op) w in
  cmdLine (heap w' l) = cmdLine (heap w l)
  /\ console w' = console w
  /\ status w' l = status w l.
Proof.
  intros Ha Hop Hq w'.
  pose proof (reanchor_active op w l sp cp Ha) as (He1 & Hs1 & _).
  rewrite <- reanchor_candidate in Hq.
  destruct (search_empty (reanchor op w) l sp (advances op) (updateOf op)
              He1 Hs1 Hq) as (_ & _ & _ & Hl & _ & Hc).
  subst w'. unfold exec, status in *.
  rewrite (run_search op w l Hop (proj1 Ha)).
  rewrite Hl, Hc, reanchor_heap, reanchor_console. simpl.
  repeat split; reflexivity.
Qed.

(** X7. [deactivate(reset)] on a running session returns normally, does what
    [cancelSearch(reset)] does, asks the editor exactly once to remove the
    keyboard handler and blanks the status; the controller keeps its
    editor. *)
Theorem deactivate_spec (w : World RE) l sp cp (reset : bool) :
  active w l sp cp ->
  let e := heap w l in
  let w' := exec (deactivate reset) w in
  result (deactivate reset) w = Normal tt
  /\ calls (heap w' l) =
       (statusCall e ""
        ++ [CRemoveKeyboardHandler (keyboardHandler (this w));
            CUpdateBackMarkers; CHighlight None]
        ++ (if reset then [CMoveCursorToPosition sp] else [])
        ++ calls e)%list
  /\ status w' l = Some ""
  /\ cursor (heap w' l) = (if reset then sp else cursor e)
  /\ searchHighlight (session (heap w' l)) = None
  /\ needle (options (this w')) = Some ""
  /\ prevNeedle (this w') = needle (options (this w))
  /\ currentPos (this w') = Some (if reset then sp else cp)
  /\ startPos (this w') = Some sp
  /\ editor (this w') = Some l.
Proof.
  intros Ha e w'.
  destruct (deactivate_active w l sp cp reset Ha) as (R & T & Hl & _ & Hc).
  destruct Ha as (He & Hs & Hcp).
  fold e w' in R, T, Hl, Hc.
  split; [exact R|].
  unfold status. rewrite T, Hl, Hc. unfold emit, emitLog, statusCall.
  destruct reset;
    cbn [cmdLine removeKeyboardHandler updateBackMarkers highlight
         moveCursorToPosition logged];
    destruct (cmdLine e) eqn:Hcl;
    cbn [cmdLine cursor session searchHighlight calls setValue
         removeKeyboardHandler updateBackMarkers highlight
         moveCursorToPosition logged hd_error app];
    rewrite ?Hcl; simpl; repeat split; auto.
Qed.

(** X8. [activate(editor, backwards)] starts a session from any state of the
    controller, running or not: it returns normally, the session runs on
    that editor with start position and anchor on the caret, an empty query
    and the given direction, the caret and the session of the editor are
    untouched, and the status reads "isearch: " or "reverse-isearch: ". *)
Theorem activate_starts_session (w : World RE) l (b : bool) :
  let here := cursor (heap w l) in
  let w' := exec (activate l b) w in
  result (activate l b) w = Normal tt
  /\ active w' l here here
  /\ needle (options (this w')) = Some ""
  /\ backwards (options (this w')) = Some b
  /\ prevNeedle (this w') = prevNeedle (this w)
  /\ cursor (heap w' l) = here
  /\ session (heap w' l) = session (heap w l)
  /\ status w' l = Some (if b then "reverse-isearch: " else "isearch: ")
  /\ (forall l', l' <> l -> heap w' l' = heap w l').
Proof.
  intros here w'.
  destruct (activate_run w l b) as (R & T & Hl & Ho & Hc).
  fold here w' in R, T, Hl, Ho, Hc.
  split; [exact R|].
  unfold active, status. rewrite T, Hl, Hc.
  rewrite emit_cursor, emit_session.
  unfold emit, emitLog, isearchMessage.
  destruct (selectionIsEmpty (heap w l)
            && negb (isSome (emacsMark (session (heap w l)))));
    cbn [cmdLine clearSelection addKeyboardHandler logged];
    destruct (cmdLine (heap w l)) eqn:Hcl;
    cbn [cmdLine cursor session setValue clearSelection addKeyboardHandler
         logged hd_error];
    rewrite ?Hcl; destruct b; simpl; repeat split; auto.
Qed.

(** X9. Starting a session and leaving it straight away, confirmed or aborted,
    wipes the remembered query: [$prevNeedle] is the empty string whatever
    it held before.  The caret has not moved and the highlight is off. *)
Theorem immediate_deactivate_forgets_query (w : World RE) l (b reset : bool) :
  let w1 := exec (activate l b) w in
  let w2 := exec (deactivate reset) w1 in
  result (deactivate reset) w1 = Normal tt
  /\ prevNeedle (this w2) = Some ""
  /\ needle (options (this w2)) = Some ""
  /\ cursor (heap w2 l) = cursor (heap w l)
  /\ searchHighlight (session (heap w2 l)) = None
  /\ status w2 l = Some "".
Proof.
  intros w1 w2.
  destruct (activate_run w l b) as (_ & T1 & Hl1 & _).
  fold w1 in T1, Hl1.
  assert (Ha : active w1 l (cursor (heap w l)) (cursor (heap w l))).
  { unfold active. rewrite T1. simpl. auto. }
  destruct (deactivate_active w1 l _ _ reset Ha) as (R & T & Hl & _ & Hc).
  fold w2 in T, Hl, Hc.
  assert (Hcur : cursor (heap w1 l) = cursor (heap w l)).
  { rewrite Hl1, emit_cursor.
    destruct (selectionIsEmpty (heap w l)
              && negb (isSome (emacsMark (session (heap w l))))); reflexivity. }
  split; [exact R|].
  unfold status. rewrite T, Hl, Hc, T1. unfold emit, emitLog.
  destruct reset;
    cbn [cmdLine removeKeyboardHandler updateBackMarkers highlight
         moveCursorToPosition logged];
    destruct (cmdLine (heap w1 l)) eqn:Hcl;
    cbn [cmdLine cursor session searchHighlight setValue
         removeKeyboardHandler updateBackMarkers highlight
         moveCursorToPosition logged hd_error];
    rewrite ?Hcl, ?Hcur; simpl; repeat split; auto.
Qed.

(** X10. [message(msg)] never throws and never changes the controller.  The text
    goes to the command line of the controller's editor when there is one,
    and the console is left alone; without an editor, or with an editor
    that has no command line, it goes to the console and no editor is
    touched. *)
Theorem message_reaches_one_sink (w : World RE) (msg : string) :
  let w' := exec (message msg) w in
  result (message msg) w = Normal tt
  /\ this w' = this w
  /\ (forall l, editor (this w) = Some l -> cmdLine (heap w l) <> None ->
        cmdLine (heap w' l) = Some msg
        /\ calls (heap w' l) = CSetValue msg :: calls (heap w l)
        /\ console w' = console w)
  /\ ((editor (this w) = None
       \/ exists l, editor (this w) = Some l /\ cmdLine (heap w l) = None) ->
        console w' = msg :: console w
        /\ forall l, heap w' l = heap w l).
Proof.
  intros w'. subst w'. unfold exec, result, message. unfold_monad.
  destruct (editor (this w)) as [l|] eqn:He; simpl.
  - destruct (cmdLine (heap w l)) eqn:Hc; simpl.
    + split; [reflexivity|]. split; [reflexivity|]. split.
      * intros l0 Hl0 _. injection Hl0 as <-. rewrite upd_same. simpl. auto.
      * intros [H | (l0 & H & H')]; [discriminate|].
        injection H as <-. congruence.
    + split; [reflexivity|]. split; [reflexivity|]. split.
      * intros l0 Hl0 Hn. injection Hl0 as <-. contradiction.
      * intros _. auto.
  - split; [reflexivity|]. split; [reflexivity|]. split.
    + intros l0 Hl0. discriminate.
    + intros _. auto.
Qed.

(** X11. Before the first activation only [addChar] and [removeChar] are safe:
    [next], [cancelSearch] and [deactivate] read a property of the editor
    that is not there and throw.  What they wrote before throwing stays:
    [next] has set the direction, [cancelSearch] and [deactivate] have
    emptied the query.  No editor is touched. *)
Theorem entry_points_before_activation (w : World RE) opts (reset : bool) :
  editor (this w) = None ->
  result (next opts) w = TypeError
  /\ backwards (options (this (exec (next opts) w)))
     = Some (truthy (NextOptions.backwards (optsOf opts)))
  /\ result (cancelSearch reset) w = TypeError
  /\ result (deactivate reset) w = TypeError
  /\ needle (options (this (exec (cancelSearch reset) w))) = Some ""
  /\ needle (options (this (exec (deactivate reset) w))) = Some ""
  /\ heap (exec (next opts) w) = heap w
  /\ heap (exec (cancelSearch reset) w) = heap w
  /\ heap (exec (deactivate reset) w) = heap w.
Proof.
  intros He. destruct w as [[o kb e s c pn] h con]; simpl in *; subst.
  unfold exec, result, next, deactivate, cancelSearch. unfold_monad.
  destruct reset; simpl; repeat split; reflexivity.
Qed.

End Properties.

(** * Properties of the [useIncrementalSearch] option *)

Section DomFacts.

Variable p : Dom.Element -> bool.

Lemma find_none_filter (l : list Dom.Element) :
  List.find p l = None <-> filter p l = [].
Proof.
  induction l as [|e l IH]; simpl; [tauto|].
  destruct (p e); [split; discriminate | exact IH].
Qed.

Lemma find_some_filter (l : list Dom.Element) e :
  List.find p l = Some e -> 1 <= List.length (filter p l).
Proof.
  intros H. destruct (filter p l) eqn:Hf; simpl; [|lia].
  apply find_none_filter in Hf. congruence.
Qed.

Lemma existsb_false_filter (l : list Dom.Element) :
  existsb p l = false -> filter p l = [].
Proof.
  induction l as [|e l IH]; simpl; [reflexivity|].
  destruct (p e); simpl; [discriminate | exact IH].
Qed.

Lemma removeFirstWith_none (l : list Dom.Element) :
  filter p l = [] -> Dom.removeFirstWith p l = l.
Proof.
  induction l as [|e l IH]; simpl; [reflexivity|].
  destruct (p e); [discriminate|]. intros H. now rewrite IH.
Qed.

Lemma removeFirstWith_filter (l : list Dom.Element) :
  List.length (filter p (Dom.removeFirstWith p l))
  = List.length (filter p l) - 1.
Proof.
  induction l as [|e l IH]; simpl; [reflexivity|].
  destruct (p e) eqn:He; simpl; [lia|]. now rewrite He.
Qed.

Lemma removeFirstWith_others (l : list Dom.Element) :
  filter (fun e => negb (p e)) (Dom.removeFirstWith p l)
  = filter (fun e => negb (p e)) l.
Proof.
  induction l as [|e l IH]; simpl; [reflexivity|].
  destruct (p e) eqn:He; simpl; [reflexivity|]. rewrite He. simpl.
  now rewrite IH.
Qed.

Lemma removeFirstWith_last (l : list Dom.Element) e :
  filter p l = [] -> p e = true -> Dom.removeFirstWith p (l ++ [e]) = l.
Proof.
  intros Hl He. induction l as [|x l IH]; simpl in *.
  - now rewrite He.
  - destruct (p x); [discriminate|]. now rewrite IH.
Qed.

End DomFacts.

Lemma styleElement_hasId : Dom.hasId styleId styleElement = true.
Proof. reflexivity. Qed.

Lemma count_zero_find (d : Dom.Document) :
  Dom.getElementById styleId d = None <-> Dom.count styleId d = 0.
Proof.
  unfold Dom.getElementById, Dom.count. rewrite find_none_filter.
  destruct (filter _ _); simpl; split; congruence.
Qed.

Lemma count_removeById (d : Dom.Document) :
  Dom.count styleId (Dom.removeById styleId d) = Dom.count styleId d - 1.
Proof.
  unfold Dom.count, Dom.removeById.
  destruct (existsb (Dom.hasId styleId) (Dom.head d)) eqn:Hx; simpl;
    rewrite !filter_app, !length_app.
  - rewrite removeFirstWith_filter.
    assert (1 <= List.length (filter (Dom.hasId styleId) (Dom.head d))).
    { apply existsb_exists in Hx. destruct Hx as (e & Hin & He).
      assert (Hf : In e (filter (Dom.hasId styleId) (Dom.head d)))
        by (apply filter_In; auto).
      destruct (filter _ _); simpl; [contradiction | lia]. }
    lia.
  - rewrite removeFirstWith_filter.
    rewrite (existsb_false_filter _ _ Hx). simpl. lia.
Qed.

Lemma count_appendToHead (d : Dom.Document) :
  Dom.count styleId (Dom.appendToHead styleElement d)
  = Datatypes.S (Dom.count styleId d).
Proof.
  unfold Dom.count, Dom.appendToHead. simpl.
  rewrite !filter_app, !length_app. simpl. lia.
Qed.

Lemma patch_count (o : option PatchOptions) (d : Dom.Document) :
  let on := truthy (enable (match o with Some o => o | None => {| enable := None |} end)) in
  Dom.count styleId (patchHighlightMarkerStyling o d)
  = if on then Nat.max 1 (Dom.count styleId d) else Dom.count styleId d - 1.
Proof.
  intros on. unfold patchHighlightMarkerStyling. fold on. clearbody on.
  destruct (Dom.getElementById styleId d) as [e|] eqn:Hg.
  - apply find_some_filter in Hg. fold (Dom.count styleId d) in Hg.
    destruct on; [lia | apply count_removeById].
  - apply count_zero_find in Hg.
    destruct on; simpl negb; cbv iota;
      [rewrite count_appendToHead, Hg; reflexivity | lia].
Qed.

(** X12. However often and in whatever order the styling is switched on and
    off, a document that held at most one element with the style's id never
    holds two; after the last switch it holds one exactly when it was
    switched on. *)
Theorem style_is_never_duplicated (vals : list (option bool))
    (d : Dom.Document) :
  Dom.count styleId d <= 1 ->
  Dom.count styleId (patchAll vals d) <= 1
  /\ (forall rest v, vals = (rest ++ [v])%list ->
        Dom.count styleId (patchAll vals d) = if truthy v then 1 else 0).
Proof.
  intros Hd.
  assert (Hall : forall vs d0, Dom.count styleId d0 <= 1 ->
            Dom.count styleId (patchAll vs d0) <= 1).
  { induction vs as [|v vs IH]; intros d0 H0; simpl; [exact H0|].
    apply IH. rewrite patch_count. cbn [enable]. destruct (truthy v); lia. }
  split; [exact (Hall vals d Hd)|].
  intros rest v ->. unfold patchAll. rewrite fold_left_app. simpl.
  fold (patchAll rest d). rewrite patch_count. cbn [enable].
  pose proof (Hall rest d Hd). destruct (truthy v); lia.
Qed.

(** X13. Switching the styling on in a document without the style element and
    off again gives back the document as it was. *)
Theorem style_on_off_round_trip (d : Dom.Document) (on off : option bool) :
  Dom.getElementById styleId d = None ->
  truthy on = true -> truthy off = false ->
  patchHighlightMarkerStyling (Some {| enable := off |})
    (patchHighlightMarkerStyling (Some {| enable := on |}) d) = d.
Proof.
  intros Hg Hon Hoff. unfold patchHighlightMarkerStyling at 2. simpl.
  rewrite Hg, Hon. simpl.
  unfold patchHighlightMarkerStyling. simpl. rewrite Hoff.
  assert (Hh : filter (Dom.hasId styleId) (Dom.head d) = []).
  { unfold Dom.getElementById in Hg. apply find_none_filter in Hg.
    rewrite filter_app in Hg. now apply app_eq_nil in Hg. }
  assert (Hf : Dom.getElementById styleId (Dom.appendToHead styleElement d)
               = Some styleElement).
  { unfold Dom.getElementById, Dom.appendToHead. simpl.
    apply find_none_filter in Hh.
    rewrite <- app_assoc. induction (Dom.head d) as [|x l IH]; simpl in *.
    - reflexivity.
    - destruct (Dom.hasId styleId x); [discriminate | exact (IH Hh)]. }
  rewrite Hf. unfold Dom.removeById, Dom.appendToHead. simpl.
  rewrite existsb_app. simpl. rewrite orb_true_r.
  rewrite (removeFirstWith_last _ _ _ Hh styleElement_hasId).
  now destruct d.
Qed.

(** X14. The patch only ever adds or removes an element with the style's id;
    every other element of the document stays where it is. *)
Theorem style_patch_keeps_other_elements (o : option PatchOptions)
    (d : Dom.Document) :
  let others := filter (fun e => negb (Dom.hasId styleId e)) in
  others (Dom.head (patchHighlightMarkerStyling o d)) = others (Dom.head d)
  /\ others (Dom.body (patchHighlightMarkerStyling o d)) = others (Dom.body d).
Proof.
  intros others. unfold patchHighlightMarkerStyling.
  destruct (Dom.getElementById styleId d);
    destruct (truthy _); simpl; try (split; reflexivity).
  - unfold Dom.removeById.
    destruct (existsb _ _); simpl; subst others;
      rewrite ?removeFirstWith_others; split; reflexivity.
  - subst others. rewrite filter_app. simpl. rewrite app_nil_r.
    split; reflexivity.
Qed.

Lemma style_patch_idempotent_aux (v : option bool) (d : Dom.Document) :
  Dom.count styleId d <= 1 ->
  patchHighlightMarkerStyling (Some {| enable := v |})
    (patchHighlightMarkerStyling (Some {| enable := v |}) d)
  = patchHighlightMarkerStyling (Some {| enable := v |}) d.
Proof.
  intros H.
  pose proof (patch_count (Some {| enable := v |}) d) as Hc.
  cbv zeta in Hc. cbn [enable] in Hc.
  remember (patchHighlightMarkerStyling (Some {| enable := v |}) d) as d'
    eqn:Hd'.
  unfold patchHighlightMarkerStyling. cbn [enable].
  destruct (truthy v) eqn:Hon.
  - destruct (Dom.getElementById styleId d') eqn:Hg; [reflexivity|].
    apply count_zero_find in Hg. lia.
  - destruct (Dom.getElementById styleId d') eqn:Hg; [|reflexivity].
    apply find_some_filter in Hg. fold (Dom.count styleId d') in Hg. lia.
Qed.

(** X15. Asking twice for the same styling is the same as asking once, provided
    the document holds at most one element with the style's id (switching
    on needs no such proviso). *)
Theorem style_patch_idempotent (o : option PatchOptions) (d : Dom.Document) :
  truthy (enable (match o with Some o => o | None => {| enable := None |} end))
  = true \/ Dom.count styleId d <= 1 ->
  patchHighlightMarkerStyling o (patchHighlightMarkerStyling o d)
  = patchHighlightMarkerStyling o d.
Proof.
  intros H.
  pose proof (patch_count o d) as Hc. cbv zeta in Hc.
  remember (patchHighlightMarkerStyling o d) as d' eqn:Hd'.
  unfold patchHighlightMarkerStyling.
  destruct (truthy (enable match o with
                           | Some o0 => o0
                           | None => {| enable := None |}
                           end)) eqn:Hon.
  - destruct (Dom.getElementById styleId d') eqn:Hg; [reflexivity|].
    apply count_zero_find in Hg. lia.
  - destruct H as [H|H]; [discriminate|].
    destruct (Dom.getElementById styleId d') eqn:Hg; [|reflexivity].
    apply find_some_filter in Hg. fold (Dom.count styleId d') in Hg. lia.
Qed.

Lemma looseEq_refl v : looseEq v v = true.
Proof. destruct v as [[|]|]; reflexivity. Qed.

Lemma looseEq_eq a b : looseEq a b = true -> a = b.
Proof. destruct a as [[|]|], b as [[|]|]; simpl; congruence. Qed.


Lemma commandsAgree_step (v : option bool) (h : CommandManager.t) :
  commandsAgree h ->
  commandsAgree (CommandManager.setupIncrementalSearch v h).
Proof.
  intros (Hn & Hh). unfold CommandManager.setupIncrementalSearch.
  destruct (looseEq (CommandManager.usesIncrementalSearch h) v) eqn:Hl;
    [split; assumption|].
  unfold commandsAgree. simpl. split; [|reflexivity].
  destruct (truthy v) eqn:Hv.
  - destruct (CommandManager.calls h) as [|c rest]; [reflexivity|].
    subst c.
    destruct v as [[|]|]; try discriminate.
    destruct (CommandManager.usesIncrementalSearch h) as [[|]|];
      try discriminate; simpl in *; exact Hn.
  - destruct (CommandManager.calls h) as [|c rest]; [reflexivity|].
    exact Hn.
Qed.

(** X17. Whatever values a new command manager is set up with, one after the
    other, the start commands are never added twice without being removed
    in between, and the newest [addCommands] or [removeCommands] call is the
    one that fits the flag. *)
Theorem commands_never_added_twice (vals : list (option bool)) :
  let fresh := {| CommandManager.usesIncrementalSearch := None;
                  CommandManager.calls := [] |} in
  let h := setupAllCommands vals fresh in
  noAddTwice (CommandManager.calls h) = true
  /\ match CommandManager.calls h with
     | [] => CommandManager.usesIncrementalSearch h = None
     | c :: _ =>
         c = if truthy (CommandManager.usesIncrementalSearch h)
             then CommandManager.AddCommands
             else CommandManager.RemoveCommands
     end.
Proof.
  intros fresh h.
  assert (Hall : forall vs h0, commandsAgree h0 ->
            (CommandManager.calls h0 = [] ->
             CommandManager.usesIncrementalSearch h0 = None) ->
            commandsAgree (setupAllCommands vs h0)
            /\ (CommandManager.calls (setupAllCommands vs h0) = [] ->
                CommandManager.usesIncrementalSearch (setupAllCommands vs h0)
                = None)).
  { induction vs as [|v vs IH]; intros h0 H0 E0; simpl; [auto|].
    apply IH; [now apply commandsAgree_step|].
    unfold CommandManager.setupIncrementalSearch.
    destruct (looseEq (CommandManager.usesIncrementalSearch h0) v);
      simpl; [exact E0 | discriminate]. }
  destruct (Hall vals fresh) as ((Hn & Hh) & He).
  { split; [reflexivity | exact I]. }
  { reflexivity. }
  fold h in Hn, Hh, He. split; [exact Hn|].
  destruct (CommandManager.calls h); [now apply He | exact Hh].
Qed.

(** X18. Whatever values a new emacs handler is set up with, either no key has
    been bound yet and the flag is still unset, or the two newest [bindKey]
    calls put C-s and C-r on the incremental search commands when the flag
    is true and on [findnext] and [findprevious] when it is not. *)
Theorem emacs_keys_follow_flag (vals : list (option bool)) :
  let fresh := {| Emacs.usesIncrementalSearch := None; Emacs.bound := [] |} in
  let h := setupAllEmacs vals fresh in
  (Emacs.bound h = [] /\ Emacs.usesIncrementalSearch h = None)
  \/ exists older,
       Emacs.bound h
       = (Emacs.bindingsFor (Emacs.usesIncrementalSearch h) ++ older)%list.
Proof.
  intros fresh h.
  assert (Hall : forall vs h0,
            ((Emacs.bound h0 = [] /\ Emacs.usesIncrementalSearch h0 = None)
             \/ exists older,
                  Emacs.bound h0
                  = (Emacs.bindingsFor (Emacs.usesIncrementalSearch h0)
                     ++ older)%list) ->
            ((Emacs.bound (setupAllEmacs vs h0) = []
              /\ Emacs.usesIncrementalSearch (setupAllEmacs vs h0) = None)
             \/ exists older,
                  Emacs.bound (setupAllEmacs vs h0)
                  = (Emacs.bindingsFor
                       (Emacs.usesIncrementalSearch (setupAllEmacs vs h0))
                     ++ older)%list)).
  { induction vs as [|v vs IH]; intros h0 H0; simpl; [exact H0|].
    apply IH. unfold Emacs.setupIncrementalSearch.
    destruct (looseEq (Emacs.usesIncrementalSearch h0) v); [exact H0|].
    right. exists (Emacs.bound h0). reflexivity. }
  apply Hall. left. split; reflexivity.
Qed.

Lemma flag_setup (v : option bool) (h : Config.Handler) :
  Config.flag (Config.setup v h)
  = match Config.flag h with Some _ => Some v | None => None end.
Proof.
  destruct h as [c|e|n]; simpl; try reflexivity.
  - unfold CommandManager.setupIncrementalSearch.
    destruct (looseEq _ v) eqn:Hl; [|reflexivity].
    apply looseEq_eq in Hl. now rewrite Hl.
  - unfold Emacs.setupIncrementalSearch.
    destruct (looseEq _ v) eqn:Hl; [|reflexivity].
    apply looseEq_eq in Hl. now rewrite Hl.
Qed.

(** X19. Setting the option brings the flag of every handler on the stack that
    has one to the value set, in place; handlers of another kind are left
    as they are, and the stack keeps its length and order. *)
Theorem set_reaches_every_handler (v : option bool) (host : Config.Host) :
  let host' := Config.set v host in
  List.length (Config.handlers host') = List.length (Config.handlers host)
  /\ forall i h, nth_error (Config.handlers host) i = Some h ->
       exists h', nth_error (Config.handlers host') i = Some h'
         /\ Config.flag h'
            = match Config.flag h with Some _ => Some v | None => None end
         /\ (Config.flag h = None -> h' = h).
Proof.
  intros host'. subst host'. simpl. split; [apply length_map|].
  intros i h Hi. exists (Config.setup v h).
  split; [now apply map_nth_error|].
  split; [apply flag_setup|].
  destruct h; simpl; try discriminate. reflexivity.
Qed.

(** X20. Setting the option twice to the same value is the same as setting it
    once, for a document with at most one element carrying the style's
    id. *)
Theorem set_idempotent (v : option bool) (host : Config.Host) :
  Dom.count styleId (Config.dom host) <= 1 ->
  Config.set v (Config.set v host) = Config.set v host.
Proof.
  intros Hd. unfold Config.set. simpl. f_equal.
  - apply style_patch_idempotent_aux. exact Hd.
  - rewrite map_map. apply map_ext. intros h.
    destruct h as [c|e|n]; simpl; try reflexivity; f_equal.
    + unfold CommandManager.setupIncrementalSearch.
      destruct (looseEq (CommandManager.usesIncrementalSearch c) v) eqn:Hl.
      * now rewrite Hl.
      * simpl. now rewrite looseEq_refl.
    + unfold Emacs.setupIncrementalSearch.
      destruct (looseEq (Emacs.usesIncrementalSearch e) v) eqn:Hl.
      * now rewrite Hl.
      * simpl. now rewrite looseEq_refl.
Qed.

(** * The controller on concrete buffers *)

#[local] Existing Instance literalSearch.

Example typing_finds_first_match :
  result (addChar "a") (exec (activate 0 false) (worldOn ["abcabcabc"] (pos 0 0)))
  = Normal (Some (Range.fromPoints (pos 0 0) (pos 0 1)))
  /\ cursor (heap typedAB 0) = pos 0 2
  /\ currentPos (this typedAB) = Some (pos 0 0)
  /\ status typedAB 0 = Some "isearch: ab".
Proof. vm_compute. repeat split; reflexivity. Qed.

Example next_walks_forward :
  result (next None) typedAB
  = Normal (Some (Range.fromPoints (pos 0 3) (pos 0 5)))
  /\ currentPos (this (exec (next None) typedAB)) = Some (pos 0 5)
  /\ result removeChar (exec (next None) typedAB)
     = Normal (Some (Range.fromPoints (pos 0 6) (pos 0 7))).
Proof. vm_compute. repeat split; reflexivity. Qed.

Example empty_buffer_not_found :
  let w := exec (activate 0 false) (worldOn [] (pos 0 0)) in
  result (addChar "x") w = Normal None
  /\ status (exec (addChar "x") w) 0 = Some "isearch: x (not found)"
  /\ cursor (heap (exec (addChar "x") w) 0) = pos 0 0.
Proof. vm_compute. repeat split; reflexivity. Qed.

Example next_before_activation_throws :
  result (next None) (worldOn ["abc"] (pos 0 0)) = TypeError.
Proof. reflexivity. Qed.

(** ** The theorems at work on these sessions *)

Lemma typedAB_active : active typedAB 0 (pos 0 0) (pos 0 0).
Proof. vm_compute. repeat split; reflexivity. Defined.

Lemma restarted_active : active restarted 0 (pos 0 2) (pos 0 2).
Proof. vm_compute. repeat split; reflexivity. Defined.

(** Typing "x" after "ab" finds nothing: the caret stays behind "ab" and the
    highlight for "ab" stays on. *)
Lemma failed_edit_leaves_surface_witness :
  active typedAB 0 (pos 0 0) (pos 0 0)
  /\ find (session (heap typedAB 0))
       (searchOptions typedAB (candidate (updateOf (OAddChar "x")) typedAB))
     = None
  /\ result (run (OAddChar "x")) typedAB = Normal None
  /\ cursor (heap (exec (run (OAddChar "x")) typedAB) 0) = pos 0 2.
Proof.
  assert (Hq : String.length (candidate (updateOf (OAddChar "x")) typedAB) <> 0)
    by (vm_compute; intros H; discriminate H).
  assert (Hf : find (session (heap typedAB 0))
                 (searchOptions typedAB
                    (candidate (updateOf (OAddChar "x")) typedAB)) = None)
    by (vm_compute; reflexivity).
  pose proof (failed_edit_leaves_surface typedAB 0 (pos 0 0) (pos 0 0)
                (OAddChar "x") typedAB_active eq_refl Hq Hf) as (R & C & _).
  split; [exact typedAB_active|]. split; [exact Hf|]. split; [exact R|].
  rewrite C. reflexivity.
Defined.

Lemma anchor_motion_witness :
  active typedAB 0 (pos 0 0) (pos 0 0)
  /\ currentPos (this (exec (run (ONext None)) typedAB)) = Some (pos 0 5)
  /\ currentPos (this (exec (run (OAddChar "c")) typedAB)) = Some (pos 0 0).
Proof.
  split; [exact typedAB_active|]. split.
  - rewrite (anchor_motion typedAB 0 (pos 0 0) (pos 0 0) (ONext None)
               typedAB_active).
    vm_compute. reflexivity.
  - rewrite (anchor_motion typedAB 0 (pos 0 0) (pos 0 0) (OAddChar "c")
               typedAB_active).
    vm_compute. reflexivity.
Defined.

(** A [next] that finds nothing moves the anchor all the same: on "abc" with
    "c" found and the caret behind it, the search from the caret fails, no
    reset runs, and the anchor has gone from the start to the caret. *)
Lemma failed_next_moves_anchor :
  active typedC 0 (pos 0 0) (pos 0 0)
  /\ cursor (heap typedC 0) = pos 0 3
  /\ result (next None) typedC = Normal None
  /\ needle (options (this (exec (next None) typedC))) = Some "c"
  /\ prevNeedle (this (exec (next None) typedC)) = None
  /\ currentPos (this (exec (next None) typedC)) = Some (pos 0 3)
  /\ currentPos (this (exec (next None) typedC)) <> currentPos (this typedC).
Proof.
  vm_compute. repeat split; try reflexivity. intros H; discriminate H.
Qed.

(** Backspacing over the only character of the query resets the session. *)
Lemma empty_query_resets_witness :
  let w := exec (addChar "b")
             (exec (activate 0 false) (worldOn ["abc"] (pos 0 0))) in
  active w 0 (pos 0 0) (pos 0 0)
  /\ cursor (heap w 0) = pos 0 2
  /\ String.length (candidate (updateOf ORemoveChar) w) = 0
  /\ result (run ORemoveChar) w
     = Normal (Some (Range.fromPoints (pos 0 0) (pos 0 0)))
  /\ cursor (heap (exec (run ORemoveChar) w) 0) = pos 0 0.
Proof.
  intros w.
  assert (Ha : active w 0 (pos 0 0) (pos 0 0))
    by (vm_compute; repeat split; reflexivity).
  assert (Hq : String.length (candidate (updateOf ORemoveChar) w) = 0)
    by (vm_compute; reflexivity).
  pose proof (empty_query_resets w 0 (pos 0 0) (pos 0 0) ORemoveChar
                Ha eq_refl Hq) as (_ & R & C & _).
  split; [exact Ha|]. split; [vm_compute; reflexivity|].
  split; [exact Hq|]. split; [exact R | exact C].
Defined.

Lemma edits_without_editor_do_nothing_witness :
  let w := worldOn ["abc"] (pos 0 0) in
  editor (this w) = None
  /\ run (OAddChar "a") w = (Normal None, w)
  /\ run ORemoveChar w = (Normal None, w)
  /\ editor (this (exec (deactivate true) typedAB)) = Some 0.
Proof.
  intros w.
  pose proof (edits_without_editor_do_nothing w) as (N & _).
  pose proof (edits_without_editor_do_nothing typedAB) as (_ & D).
  split; [reflexivity|].
  split; [exact (N (OAddChar "a") eq_refl eq_refl)|].
  split; [exact (N ORemoveChar eq_refl eq_refl)|].
  exact (proj2 (D 0 (pos 0 0) (pos 0 0) true typedAB_active)).
Defined.

(** After [deactivate] the overlay is gone, yet [addChar] still searches:
    it returns the match and moves the caret. *)
Lemma addChar_after_deactivate_searches :
  let w := exec (deactivate false)
             (exec (activate 0 false) (worldOn ["abc"] (pos 0 0))) in
  handlers (heap w 0) = []
  /\ cursor (heap w 0) = pos 0 0
  /\ result (addChar "b") w
     = Normal (Some (Range.fromPoints (pos 0 1) (pos 0 2)))
  /\ cursor (heap (exec (addChar "b") w) 0) = pos 0 2
  /\ run (OAddChar "b") w <> (Normal None, w).
Proof.
  vm_compute. repeat split; try reflexivity. intros H; discriminate H.
Qed.

Lemma successful_search_orientation_witness :
  truthy (backwards (options (this (reanchor (OAddChar "b") startedBackwards))))
  = true
  /\ find (session (heap startedBackwards 0))
       (searchOptions (reanchor (OAddChar "b") startedBackwards)
          (candidate (updateOf (OAddChar "b")) startedBackwards))
     = Some (Range.fromPoints (pos 0 7) (pos 0 8))
  /\ result (run (OAddChar "b")) startedBackwards
     = Normal (Some (Range.fromPoints (pos 0 8) (pos 0 7)))
  /\ cursor (heap (exec (run (OAddChar "b")) startedBackwards) 0) = pos 0 7.
Proof.
  assert (Hq : String.length
                 (candidate (updateOf (OAddChar "b")) startedBackwards) <> 0)
    by (vm_compute; intros H; discriminate H).
  assert (Hf : find (session (heap startedBackwards 0))
                 (searchOptions (reanchor (OAddChar "b") startedBackwards)
                    (candidate (updateOf (OAddChar "b")) startedBackwards))
               = Some (Range.fromPoints (pos 0 7) (pos 0 8)))
    by (vm_compute; reflexivity).
  pose proof (successful_search_orientation startedBackwards 0 (OAddChar "b")
                (Range.fromPoints (pos 0 7) (pos 0 8))
                eq_refl eq_refl Hq Hf) as (B & _).
  split; [reflexivity|]. split; [exact Hf|]. exact (B eq_refl).
Defined.

Lemma next_commits_query_witness :
  active restarted 0 (pos 0 2) (pos 0 2)
  /\ backwards (options (this (exec (next (Some reuse)) restarted)))
     = Some false
  /\ needle (options (this (exec (next (Some reuse)) restarted))) = Some "ab"
  /\ start (options (this (exec (next (Some reuse)) restarted)))
     = Some (pos 0 2)
  /\ currentPos (this (exec (next (Some reuse)) restarted)) = Some (pos 0 5).
Proof.
  pose proof (next_commits_query restarted 0 (pos 0 2) (pos 0 2) (Some reuse)
                restarted_active) as (_ & _ & _ & _ & B & Q & _).
  assert (Hq : String.length "ab" <> 0) by (simpl; intros H; discriminate H).
  destruct (Q Hq) as (N & St & A).
  split; [exact restarted_active|]. split; [exact B|]. split; [exact N|].
  split; [exact St|]. rewrite A. vm_compute. reflexivity.
Defined.

(** A query taken over from [$prevNeedle] is stored: the session restarted
    with an empty query holds "ab" after [next] has reused it, and typing
    goes on from there. *)
Lemma reused_query_is_stored :
  needle (options (this restarted)) = Some ""
  /\ prevNeedle (this restarted) = Some "ab"
  /\ result (next (Some reuse)) restarted
     = Normal (Some (Range.fromPoints (pos 0 3) (pos 0 5)))
  /\ needle (options (this (exec (next (Some reuse)) restarted))) = Some "ab"
  /\ needle (options (this (exec (next (Some reuse)) restarted)))
     <> needle (options (this restarted))
  /\ needle (options (this (exec (addChar "c")
                              (exec (next (Some reuse)) restarted))))
     = Some "abc".
Proof.
  vm_compute. repeat split; try reflexivity. intros H; discriminate H.
Qed.

Lemma cancelSearch_spec_witness :
  active typedAB 0 (pos 0 0) (pos 0 0)
  /\ cursor (heap typedAB 0) = pos 0 2
  /\ result (cancelSearch true) typedAB
     = Normal (Range.fromPoints (pos 0 0) (pos 0 0))
  /\ prevNeedle (this (exec (cancelSearch true) typedAB)) = Some "ab"
  /\ cursor (heap (exec (cancelSearch true) typedAB) 0) = pos 0 0
  /\ result (cancelSearch false) typedAB
     = Normal (Range.fromPoints (pos 0 0) (pos 0 0))
  /\ cursor (heap (exec (cancelSearch false) typedAB) 0) = pos 0 2.
Proof.
  pose proof (cancelSearch_spec typedAB 0 (pos 0 0) (pos 0 0) true
                typedAB_active) as (R & P & _ & _ & C & _).
  pose proof (cancelSearch_spec typedAB 0 (pos 0 0) (pos 0 0) false
                typedAB_active) as (R' & _ & _ & _ & C' & _).
  split; [exact typedAB_active|]. split; [reflexivity|].
  split; [exact R|]. split; [rewrite P; reflexivity|].
  split; [exact C|]. split; [exact R'|]. rewrite C'. reflexivity.
Defined.

Lemma activate_on_running_session_witness :
  active typedAB 0 (pos 0 0) (pos 0 0)
  /\ startPos (this (exec (activate 0 false) typedAB)) = Some (pos 0 2)
  /\ prevNeedle (this (exec (activate 0 false) typedAB)) = None
  /\ searchHighlight (session (heap (exec (activate 0 false) typedAB) 0))
     = Some "ab".
Proof.
  pose proof (activate_on_running_session typedAB 0 (pos 0 0) (pos 0 0) false
                typedAB_active)
    as (_ & Sp & _ & _ & _ & P & _ & H & _).
  split; [exact typedAB_active|]. split; [exact Sp|].
  split; [rewrite P; reflexivity|]. rewrite H. reflexivity.
Defined.

(** Activating over the running "ab" session: the start position (0,0) is
    replaced by the caret (0,2); the world differs from the one before, and
    from the one reached by deactivating first, which would have stashed
    "ab", cleared the highlight and taken the handler off before putting it
    back. *)
Lemma reactivate_overwrites_session :
  let w' := exec (activate 0 false) typedAB in
  let viaDeactivate := exec (activate 0 false) (exec (deactivate false) typedAB) in
  active typedAB 0 (pos 0 0) (pos 0 0)
  /\ startPos (this w') = Some (pos 0 2)
  /\ currentPos (this w') = Some (pos 0 2)
  /\ needle (options (this w')) <> needle (options (this typedAB))
  /\ prevNeedle (this w') = None
  /\ prevNeedle (this viaDeactivate) = Some "ab"
  /\ searchHighlight (session (heap w' 0)) = Some "ab"
  /\ searchHighlight (session (heap viaDeactivate 0)) = None
  /\ ~ In (CRemoveKeyboardHandler 1) (calls (heap w' 0))
  /\ In (CRemoveKeyboardHandler 1) (calls (heap viaDeactivate 0)).
Proof.
  vm_compute. repeat split; try reflexivity.
  - intros H; discriminate H.
  - intros H. repeat (destruct H as [H|H]; [discriminate H|]). exact H.
  - do 4 right. left. reflexivity.
Qed.

(** A selection the editor reports as non-empty, with no mark set, is not
    cleared by [activate]. *)
Lemma nonempty_selection_survives_activate :
  let w' := exec (activate 0 false) selecting in
  selectionIsEmpty (heap selecting 0) = false
  /\ emacsMark (session (heap selecting 0)) = None
  /\ calls (heap w' 0) = [CSetValue "isearch: "; CAddKeyboardHandler 1]
  /\ ~ In CClearSelection (calls (heap w' 0))
  /\ selectionIsEmpty (heap w' 0) = false.
Proof.
  vm_compute. repeat split; try reflexivity.
  intros H. repeat (destruct H as [H|H]; [discriminate H|]). exact H.
Qed.

(** The session restarted after "ab" remembers it; one backspace on the
    empty query forgets it, and [next] reusing the previous query then only
    resets. *)
Lemma empty_reset_overwrites_prevNeedle_witness :
  active restarted 0 (pos 0 2) (pos 0 2)
  /\ prevNeedle (this restarted) = Some "ab"
  /\ prevNeedle (this (exec removeChar restarted)) = Some ""
  /\ result (next (Some reuse)) (exec removeChar restarted)
     = Normal (Some (Range.fromPoints (pos 0 2) (pos 0 2))).
Proof.
  pose proof (empty_reset_overwrites_prevNeedle restarted 0 (pos 0 2) (pos 0 2)
                restarted_active) as (_ & H).
  destruct (H eq_refl) as (P & _ & _ & N).
  destruct (N reuse eq_refl) as (_ & R & _).
  split; [exact restarted_active|]. split; [reflexivity|].
  split; [exact P | exact R].
Defined.

(** ** The further properties on these sessions *)

Lemma running_session_never_throws_witness :
  (exists l sp cp, active typedAB l sp cp)
  /\ result (performAll [Act (ONext None); Activate 0 true; Act ORemoveChar;
                         Act (ODeactivate true); Act (OAddChar "c")]) typedAB
     = Normal tt.
Proof.
  assert (H : exists l sp cp, active typedAB l sp cp)
    by (exists 0, (pos 0 0), (pos 0 0); exact typedAB_active).
  split; [exact H|].
  exact (proj1 (running_session_never_throws
                  [Act (ONext None); Activate 0 true; Act ORemoveChar;
                   Act (ODeactivate true); Act (OAddChar "c")] typedAB H)).
Defined.

Lemma start_position_is_fixed_witness :
  active typedAB 0 (pos 0 0) (pos 0 0)
  /\ startPos (this (exec (performAll
                             (acts [ONext None; OAddChar "c"; ORemoveChar;
                                    OCancelSearch false]))
                          typedAB))
     = Some (pos 0 0).
Proof.
  split; [exact typedAB_active|].
  exact (proj1 (proj2 (start_position_is_fixed
                         [ONext None; OAddChar "c"; ORemoveChar;
                          OCancelSearch false]
                         typedAB 0 (pos 0 0) (pos 0 0) typedAB_active))).
Defined.

Lemma edits_build_the_query_witness :
  active typedAB 0 (pos 0 0) (pos 0 0)
  /\ needle (options (this (exec (addChar "x") typedAB))) = Some "abx"
  /\ needle (options (this (exec removeChar (exec (addChar "x") typedAB))))
     = Some "ab".
Proof.
  pose proof (edits_build_the_query typedAB 0 (pos 0 0) (pos 0 0) "x"
                typedAB_active) as (A & _ & B).
  split; [exact typedAB_active|]. split; [exact A | exact (B eq_refl)].
Defined.

Lemma removeChar_shortens_query_witness :
  active typedAB 0 (pos 0 0) (pos 0 0)
  /\ String.length
       (orEmpty (needle (options (this (exec removeChar typedAB))))) = 1.
Proof.
  split; [exact typedAB_active|].
  exact (removeChar_shortens_query typedAB 0 (pos 0 0) (pos 0 0)
           typedAB_active).
Defined.

Lemma successful_search_updates_editor_witness :
  find (session (heap typedAB 0))
    (searchOptions (reanchor (ONext None) typedAB)
       (candidate (updateOf (ONext None)) typedAB))
  = Some (Range.fromPoints (pos 0 3) (pos 0 5))
  /\ status (exec (run (ONext None)) typedAB) 0 = Some "isearch: ab"
  /\ searchHighlight (session (heap (exec (run (ONext None)) typedAB) 0))
     = Some "ab".
Proof.
  assert (Hq : String.length (candidate (updateOf (ONext None)) typedAB) <> 0)
    by (vm_compute; intros H; discriminate H).
  assert (Hf : find (session (heap typedAB 0))
                 (searchOptions (reanchor (ONext None) typedAB)
                    (candidate (updateOf (ONext None)) typedAB))
               = Some (Range.fromPoints (pos 0 3) (pos 0 5)))
    by (vm_compute; reflexivity).
  pose proof (successful_search_updates_editor typedAB 0 (ONext None)
                (Range.fromPoints (pos 0 3) (pos 0 5))
                eq_refl eq_refl Hq Hf) as (_ & H & St & _).
  split; [exact Hf|]. split; [exact St | exact H].
Defined.

Lemma empty_reset_keeps_status_witness :
  let w := exec (addChar "b")
             (exec (activate 0 false) (worldOn ["abc"] (pos 0 0))) in
  active w 0 (pos 0 0) (pos 0 0)
  /\ String.length (candidate (updateOf ORemoveChar) w) = 0
  /\ status w 0 = Some "isearch: b"
  /\ status (exec (run ORemoveChar) w) 0 = Some "isearch: b".
Proof.
  intros w.
  assert (Ha : active w 0 (pos 0 0) (pos 0 0))
    by (vm_compute; repeat split; reflexivity).
  assert (Hq : String.length (candidate (updateOf ORemoveChar) w) = 0)
    by (vm_compute; reflexivity).
  pose proof (empty_reset_keeps_status w 0 (pos 0 0) (pos 0 0) ORemoveChar
                Ha eq_refl Hq) as (_ & _ & St).
  split; [exact Ha|]. split; [exact Hq|]. split; [reflexivity|].
  rewrite St. reflexivity.
Defined.

Lemma deactivate_spec_witness :
  active typedAB 0 (pos 0 0) (pos 0 0)
  /\ result (deactivate true) typedAB = Normal tt
  /\ status (exec (deactivate true) typedAB) 0 = Some ""
  /\ cursor (heap (exec (deactivate true) typedAB) 0) = pos 0 0.
Proof.
  pose proof (deactivate_spec typedAB 0 (pos 0 0) (pos 0 0) true
                typedAB_active) as (R & _ & St & C & _).
  split; [exact typedAB_active|]. split; [exact R|].
  split; [exact St | exact C].
Defined.

Lemma message_reaches_one_sink_witness :
  editor (this typedAB) = Some 0
  /\ cmdLine (heap typedAB 0) <> None
  /\ cmdLine (heap (exec (message "hello") typedAB) 0) = Some "hello"
  /\ console (exec (message "hello") (worldOn ["abc"] (pos 0 0))) = ["hello"].
Proof.
  assert (Hc : cmdLine (heap typedAB 0) <> None)
    by (vm_compute; intros H; discriminate H).
  pose proof (message_reaches_one_sink typedAB "hello") as (_ & _ & A & _).
  pose proof (message_reaches_one_sink (worldOn ["abc"] (pos 0 0)) "hello")
    as (_ & _ & _ & B).
  split; [reflexivity|]. split; [exact Hc|].
  split; [exact (proj1 (A 0 eq_refl Hc))|].
  exact (proj1 (B (or_introl eq_refl))).
Defined.

Lemma entry_points_before_activation_witness :
  editor (this (worldOn ["abc"] (pos 0 0))) = None
  /\ result (next None) (worldOn ["abc"] (pos 0 0)) = TypeError
  /\ result (deactivate false) (worldOn ["abc"] (pos 0 0)) = TypeError.
Proof.
  pose proof (entry_points_before_activation (worldOn ["abc"] (pos 0 0))
                None false eq_refl) as (N & _ & _ & D & _).
  split; [reflexivity|]. split; [exact N | exact D].
Defined.

Lemma style_is_never_duplicated_witness :
  Dom.count styleId page <= 1
  /\ Dom.count styleId
       (patchAll [Some true; Some true; None; Some false; Some true] page) = 1.
Proof.
  assert (H : Dom.count styleId page <= 1) by (vm_compute; lia).
  split; [exact H|].
  exact (proj2 (style_is_never_duplicated
                  [Some true; Some true; None; Some false; Some true] page H)
           [Some true; Some true; None; Some false] (Some true) eq_refl).
Defined.

Lemma style_on_off_round_trip_witness :
  Dom.getElementById styleId page = None
  /\ patchHighlightMarkerStyling (Some {| enable := None |})
       (patchHighlightMarkerStyling (Some {| enable := Some true |}) page)
     = page.
Proof.
  split; [reflexivity|].
  exact (style_on_off_round_trip page (Some true) None
           eq_refl eq_refl eq_refl).
Defined.

Lemma style_patch_idempotent_witness :
  Dom.count styleId page <= 1
  /\ patchHighlightMarkerStyling (Some {| enable := Some false |})
       (patchHighlightMarkerStyling (Some {| enable := Some false |}) page)
     = patchHighlightMarkerStyling (Some {| enable := Some false |}) page.
Proof.
  assert (H : Dom.count styleId page <= 1) by (vm_compute; lia).
  split; [exact H|].
  exact (style_patch_idempotent (Some {| enable := Some false |}) page
           (or_intror H)).
Defined.


Lemma set_reaches_every_handler_witness :
  nth_error (Config.handlers plainHost) 1
  = Some (Config.OfEmacs {| Emacs.usesIncrementalSearch := None;
                            Emacs.bound := [] |})
  /\ exists h', nth_error (Config.handlers (Config.set (Some true) plainHost)) 1
                = Some h'
                /\ Config.flag h' = Some (Some true).
Proof.
  split; [reflexivity|].
  destruct (proj2 (set_reaches_every_handler (Some true) plainHost) 1 _ eq_refl)
    as (h' & Hn & Hf & _).
  exists h'. split; [exact Hn | exact Hf].
Defined.

Lemma set_idempotent_witness :
  Dom.count styleId (Config.dom plainHost) <= 1
  /\ Config.set (Some true) (Config.set (Some true) plainHost)
     = Config.set (Some true) plainHost.
Proof.
  assert (H : Dom.count styleId (Config.dom plainHost) <= 1)
    by (vm_compute; lia).
  split; [exact H|]. exact (set_idempotent (Some true) plainHost H).
Defined.
